(** * Knowhere: the GPU flat index node and the NSG graph index

    A shallow embedding of [src/index/gpu/flat_gpu/flat_gpu.cc]
    (class [GpuFlatIndexNode]) and of the graph index whose persistence
    entry points are declared in
    [knowhere/index/vector_index/impl/nsg/NSGIO.h].

    The faiss library is external: its operations are the fields of the
    class [FaissLib], and every method of the node is written against that
    interface.  C++ exceptions are the [Throw] case of [except];
    undefined behaviour (a null pointer dereferenced, an access outside an
    array) is the [Fault] case of [outcome]. *)

From Stdlib Require Import ZArith NArith List Lia.
From Stdlib.Strings Require Import Byte.
From stdpp Require Import gmap strings list.

Open Scope Z_scope.

(** ** Status codes and [expected<T>] *)

(** [knowhere::Status], the enumerators this code returns. *)
Inductive Status : Set :=
| success
| invalid_args
| invalid_metric_type
| empty_index
| invalid_binary_set
| faiss_inner_error
| not_implemented.

#[global] Instance Status_eq_dec : EqDecision Status.
Proof. solve_decision. Defined.

(** [expected<T>]: a value, or a status with a message. *)
Inductive expected (T : Type) : Type :=
| Value (v : T)
| Err (s : Status) (msg : string).
Arguments Value {T} v.
Arguments Err {T} s msg.

(** What a call into the external library does: it returns, or it throws a
    [std::exception] carrying [what()]. *)
Inductive except (A : Type) : Type :=
| Done (a : A)
| Throw (what : string).
Arguments Done {A} a.
Arguments Throw {A} what.

(** Undefined behaviour the C++ code can run into. *)
Inductive fault : Set :=
| null_index      (* [index_->...] with [index_ == nullptr] *)
| null_resource   (* a [ResScope] over a handle that names no resource *)
| bad_read        (* a read outside the caller's array *)
| bad_write.      (* a write outside an array of the heap *)

Inductive outcome (A : Type) : Type :=
| Returns (a : A)
| Fault (f : fault).
Arguments Returns {A} a.
Arguments Fault {A} f.

(** [faiss::MetricType], the two metrics a flat index takes. *)
Inductive MetricType : Set :=
| METRIC_INNER_PRODUCT
| METRIC_L2.

(** ** Heap arrays *)

(** A [new T[len]] array: a cell is [None] until it is written. *)
Abbreviation buffer A := (list (option A)) (only parsing).

Definition new_array {A : Type} (len : Z) : buffer A :=
  replicate (Z.to_nat len) None.

(** Every cell of the array has been written. *)
Definition filled {A : Type} (b : buffer A) : Prop :=
  Forall (fun c => is_Some c) b.

(** [buf[off + j] = row j] for [j < k], in increasing [j]. *)
Fixpoint write_row {A : Type} (off : nat) (k : nat) (row : nat -> A)
    (j : nat) (buf : buffer A) : buffer A :=
  match k with
  | O => buf
  | S k' => write_row off k' row (S j) (<[(off + j)%nat := Some (row j)]> buf)
  end.

(** What [faiss::Index::search] leaves in an output array of the caller:
    the entry of rank [j] of query [q] at position [q * k + j]. *)
Fixpoint write_rows {A : Type} (nq : nat) (k : nat) (res : nat -> nat -> A)
    (q : nat) (buf : buffer A) : buffer A :=
  match nq with
  | O => buf
  | S nq' => write_rows nq' k res (S q) (write_row (q * k) k (res q) 0 buf)
  end.

(** ** Binary sets *)

(** Modelled from the spec: [Binary] and [BinarySet] (knowhere/binaryset.h)
    are not among the sources.  A Binary Set is "a mapping from a type-name
    string to an opaque immutable byte buffer plus its length"; [Append]
    stores the entry under its name and [GetByName] yields the entry or
    [nullptr]. *)
Record Binary : Type := mkBinary {
  data : list byte;
  size : Z
}.

Definition Append (binset : gmap string Binary) (name : string)
    (d : list byte) (sz : Z) : gmap string Binary :=
  <[name := mkBinary d sz]> binset.

Definition GetByName (binset : gmap string Binary) (name : string)
    : option Binary :=
  binset !! name.

(** Modelled from the spec: [MemoryIOWriter] and [MemoryIOReader]
    (io/memory_io.h) are not among the sources.  The writer is an
    append-only cursor over a growable buffer; the reader is a cursor over
    a caller-sized buffer, "read N raw bytes" advancing the cursor. *)
Record MemoryIOWriter : Type := mkWriter {
  w_data : list byte
}.

Definition writer_new : MemoryIOWriter := mkWriter [].

Definition writer_write (w : MemoryIOWriter) (bs : list byte) : MemoryIOWriter :=
  mkWriter (w_data w ++ bs).

Definition tellg (w : MemoryIOWriter) : Z := Z.of_nat (length (w_data w)).

Record MemoryIOReader : Type := mkReader {
  r_data : list byte;
  r_total : nat;
  r_rp : nat
}.

Definition reader_new (d : list byte) (sz : Z) : MemoryIOReader :=
  mkReader d (Z.to_nat sz) 0.

(** The bytes the reader can still hand out. *)
Definition reader_rest (r : MemoryIOReader) : list byte :=
  drop (r_rp r) (take (r_total r) (r_data r)).

(** [reader(dst, n)]: [n] bytes and the advanced reader, or nothing when
    fewer than [n] bytes are left. *)
Definition reader_read (r : MemoryIOReader) (n : nat)
    : option (list byte * MemoryIOReader) :=
  if decide (n <= length (reader_rest r))%nat
  then Some (take n (reader_rest r),
             mkReader (r_data r) (r_total r) (r_rp r + n))
  else None.

(** ** The external vector library *)

Definition BitsetView : Type := Z -> bool.

(** The part of faiss and of the GPU resource manager this file calls. *)
Class FaissLib : Type := {
  Scalar : Type;                       (* float *)
  Index : Type;                        (* faiss::Index *)
  Res : Type;                          (* a GPU resource handle *)
  index_d : Index -> Z;                (* index->d *)
  index_ntotal : Index -> Z;           (* index->ntotal *)
  IndexFlat : Z -> MetricType -> Index;                 (* faiss::IndexFlat(d, metric) *)
  index_add : Index -> Z -> list Scalar -> except Index;
  index_search :
    Index -> Z -> list Scalar -> Z -> BitsetView ->
    except (nat -> nat -> Z * Scalar);
  index_reconstruct : Index -> Z -> except (nat -> Scalar);
  faiss_write_index : Index -> except (list byte);
  faiss_read_index : list byte -> except Index;
  index_cpu_to_gpu : Res -> Index -> except Index;
  GetRes : Res                         (* GPUResMgr::GetInstance().GetRes() *)
}.

(** ** Data sets and configurations *)

Record DataSet `{FaissLib} : Type := mkDataSet {
  rows : Z;
  dim : Z;
  tensor : buffer Scalar;
  ids : buffer Z;
  distance : buffer Scalar
}.
Arguments mkDataSet {_} rows dim tensor ids distance.

Record Config : Type := mkConfig {
  metric_type : string;
  k : Z
}.

(** Modelled from the spec: [Str2FaissMetricType] (common/metric.h) is not
    among the sources.  Train "fails with InvalidMetric if the requested
    distance metric is unsupported": the helper yields the metric the table
    has for the name, and the [invalid_metric_type] error when it has
    none.  The table is a parameter. *)
Definition Str2FaissMetricType (metric_map : gmap string MetricType)
    (name : string) : expected MetricType :=
  match metric_map !! name with
  | Some m => Value m
  | None => Err invalid_metric_type "invalid metric type"
  end.

(** ** [GpuFlatIndexNode] *)

Section GpuFlat.
Context `{FaissLib}.

(** The metric table of common/metric.h and the type name
    [knowhere::IndexEnum::INDEX_FAISS_GPU_IDMAP]. *)
Variable metric_map : gmap string MetricType.
Variable INDEX_FAISS_GPU_IDMAP : string.

(** The members [res_] and [index_]; [None] is the null pointer. *)
Record GpuFlatIndexNode : Type := mkNode {
  res_ : option Res;
  index_ : option Index
}.

(** The constructor: [index_(nullptr)]. *)
Definition GpuFlatIndexNode_new : GpuFlatIndexNode := mkNode None None.

Definition Type_ : string := INDEX_FAISS_GPU_IDMAP.

Definition GenResultDataSet (nq kk : Z) (i : buffer Z) (d : buffer Scalar)
    : DataSet :=
  mkDataSet nq kk [] i d.

Definition GenResultDataSet_tensor (xq : buffer Scalar) : DataSet :=
  mkDataSet 0 0 xq [] [].

Definition Train (node : GpuFlatIndexNode) (dataset : DataSet) (cfg : Config)
    : GpuFlatIndexNode * Status :=
  match Str2FaissMetricType metric_map (metric_type cfg) with
  | Err s _ => (node, s)
  | Value metric =>
      (mkNode (res_ node) (Some (IndexFlat (dim dataset) metric)), success)
  end.

(** The input tensor as the library reads it. *)
Definition GetTensor (dataset : DataSet) : list Scalar :=
  omap id (tensor dataset).

Definition Add (node : GpuFlatIndexNode) (dataset : DataSet) (cfg : Config)
    : outcome (GpuFlatIndexNode * Status) :=
  match index_ node with
  | None => Fault null_index
  | Some index =>
      match index_add index (rows dataset) (GetTensor dataset) with
      | Throw _ => Returns (node, faiss_inner_error)
      | Done index' => Returns (mkNode (res_ node) (Some index'), success)
      end
  end.

(** What [e.what()] says when [new T[len]] is asked for a negative number
    of cells: the expression throws [std::bad_array_new_length]. *)
Definition bad_array_new_length : string := "std::bad_array_new_length".

(** Modelled from the spec: [ResScope] (index/gpu/gpu_res_mgr.h) is not
    among the sources.  The guard is "acquired" on a resource handle and
    releases "the reference" when the scope ends: it holds the lock of the
    resource the handle names.  The handle [res_] of a node names a
    resource once Deserialize has assigned it; a guard over a handle that
    names no resource has nothing to lock, and taking it is undefined
    behaviour. *)
Definition ResScope (res : option Res) (renew : bool) : outcome unit :=
  match res with
  | Some _ => Returns tt
  | None => Fault null_resource
  end.

(** The two arrays are allocated inside the [try] block before the guard
    is taken; they are freed on the exception path and handed to the
    result otherwise.  An allocation of a non-negative number of cells is
    taken to succeed. *)
Definition Search (node : GpuFlatIndexNode) (dataset : DataSet) (cfg : Config)
    (bitset : BitsetView) : outcome (expected DataSet) :=
  match index_ node with
  | None => Returns (Err empty_index "index not loaded")
  | Some index =>
      let nq := rows dataset in
      let x := GetTensor dataset in
      let len := k cfg * nq in
      if decide (len < 0)
      then Returns (Err faiss_inner_error bad_array_new_length)
      else
        let ids0 : buffer Z := new_array len in
        let dis0 : buffer Scalar := new_array len in
        match ResScope (res_ node) false with
        | Fault f => Fault f
        | Returns _ =>
            match index_search index nq x (k cfg) bitset with
            | Throw what => Returns (Err faiss_inner_error what)
            | Done res =>
                let dis1 :=
                  write_rows (Z.to_nat nq) (Z.to_nat (k cfg))
                    (fun q j => snd (res q j)) 0 dis0 in
                let ids1 :=
                  write_rows (Z.to_nat nq) (Z.to_nat (k cfg))
                    (fun q j => fst (res q j)) 0 ids0 in
                Returns (Value (GenResultDataSet nq (k cfg) ids1 dis1))
            end
        end
  end.

Definition RangeSearch (node : GpuFlatIndexNode) (dataset : DataSet)
    (cfg : Config) (bitset : BitsetView) : expected DataSet :=
  Err not_implemented "".

(** The loop of [GetVectorByIds], from iteration [i] with [count]
    iterations left.  [index_->reconstruct(id, xq + i * dim)] writes the
    [index_->d] components of the vector from cell [i * dim] on; a write
    that does not fit the array runs past its end. *)
Fixpoint reconstruct_loop (node : GpuFlatIndexNode) (in_ids : buffer Z)
    (d : nat) (count : nat) (i : nat) (xq : buffer Scalar)
    : outcome (except (buffer Scalar)) :=
  match count with
  | O => Returns (Done xq)
  | S count' =>
      match in_ids !! i with
      | Some (Some id_) =>
          match index_ node with
          | None => Fault null_index
          | Some index =>
              match index_reconstruct index id_ with
              | Throw what => Returns (Throw what)
              | Done vec =>
                  let w := Z.to_nat (index_d index) in
                  if decide (i * d + w <= length xq)%nat
                  then reconstruct_loop node in_ids d count' (S i)
                         (write_row (i * d) w vec 0 xq)
                  else Fault bad_write
              end
          end
      | _ => Fault bad_read
      end
  end.

(** No test of [index_] precedes the loop.  The array is allocated inside
    the [try] block: a negative [nq * dim] throws there and is caught. *)
Definition GetVectorByIds (node : GpuFlatIndexNode) (dataset : DataSet)
    : outcome (expected DataSet) :=
  let nq := rows dataset in
  let d := dim dataset in
  let in_ids := ids dataset in
  if decide (nq * d < 0)
  then Returns (Err faiss_inner_error bad_array_new_length)
  else
    let xq : buffer Scalar := new_array (nq * d) in
    match reconstruct_loop node in_ids (Z.to_nat d) (Z.to_nat nq) 0 xq with
    | Fault f => Fault f
    | Returns (Throw what) => Returns (Err faiss_inner_error what)
    | Returns (Done xq') => Returns (Value (GenResultDataSet_tensor xq'))
    end.

Definition GetIndexMeta (node : GpuFlatIndexNode) (cfg : Config)
    : expected DataSet :=
  Err not_implemented "".

Definition Serialize (node : GpuFlatIndexNode) (binset : gmap string Binary)
    : gmap string Binary * Status :=
  match index_ node with
  | None => (binset, empty_index)
  | Some index =>
      match faiss_write_index index with
      | Throw _ => (binset, faiss_inner_error)
      | Done bytes =>
          let writer := writer_write writer_new bytes in
          (Append binset Type_ (w_data writer) (tellg writer), success)
      end
  end.

(** [index_] and [res_] are assigned last, after every call that can
    throw. *)
Definition Deserialize (node : GpuFlatIndexNode) (binset : gmap string Binary)
    (config : Config) : GpuFlatIndexNode * Status :=
  match GetByName binset Type_ with
  | None => (node, invalid_binary_set)
  | Some binary =>
      let reader := reader_new (data binary) (size binary) in
      match faiss_read_index (reader_rest reader) with
      | Throw _ => (node, faiss_inner_error)
      | Done index =>
          let gpu_res := GetRes in
          match index_cpu_to_gpu gpu_res index with
          | Throw _ => (node, faiss_inner_error)
          | Done gpu_index => (mkNode (Some gpu_res) (Some gpu_index), success)
          end
      end
  end.

Definition DeserializeFromFile (node : GpuFlatIndexNode) (filename : string)
    (config : Config) : GpuFlatIndexNode * Status :=
  (node, not_implemented).

Definition Dim (node : GpuFlatIndexNode) : outcome Z :=
  match index_ node with
  | None => Fault null_index
  | Some index => Returns (index_d index)
  end.

Definition Count (node : GpuFlatIndexNode) : outcome Z :=
  match index_ node with
  | None => Fault null_index
  | Some index => Returns (index_ntotal index)
  end.

Definition Size (node : GpuFlatIndexNode) : outcome Z :=
  match index_ node with
  | None => Fault null_index
  | Some index => Returns (index_ntotal index * index_d index * 4)
  end.

(** The lifecycle state of the node as the contract names it: [Empty] is
    the null [index_]. *)
Definition is_empty (node : GpuFlatIndexNode) : Prop := index_ node = None.

(** The id of row [q] can be read and its vector reconstructed. *)
Definition row_ok (index : Index) (in_ids : buffer Z) (idf : nat -> Z)
    (vecf : nat -> nat -> Scalar) (q : nat) : Prop :=
  in_ids !! q = Some (Some (idf q))
  /\ index_reconstruct index (idf q) = Done (vecf q).

(** *** Sequences of calls *)

(** A call of one of the methods that can change the node. *)
Inductive call : Type :=
| call_Train (dataset : DataSet) (cfg : Config)
| call_Add (dataset : DataSet) (cfg : Config)
| call_Deserialize (binset : gmap string Binary) (config : Config)
| call_DeserializeFromFile (filename : string) (config : Config).

Definition step (node : GpuFlatIndexNode) (c : call)
    : outcome (GpuFlatIndexNode * Status) :=
  match c with
  | call_Train dataset cfg => Returns (Train node dataset cfg)
  | call_Add dataset cfg => Add node dataset cfg
  | call_Deserialize binset config => Returns (Deserialize node binset config)
  | call_DeserializeFromFile filename config =>
      Returns (DeserializeFromFile node filename config)
  end.

(** The calls one after the other, each on the node the one before left;
    the statuses are dropped. *)
Fixpoint run (node : GpuFlatIndexNode) (cs : list call)
    : outcome GpuFlatIndexNode :=
  match cs with
  | [] => Returns node
  | c :: cs' =>
      match step node c with
      | Returns (node', _) => run node' cs'
      | Fault f => Fault f
      end
  end.

(** The call is a Train with a metric of the table, or a Deserialize of a
    binary set the library and the device accept. *)
Definition installs (c : call) : Prop :=
  match c with
  | call_Train _ cfg => is_Some (metric_map !! metric_type cfg)
  | call_Deserialize binset config =>
      snd (Deserialize GpuFlatIndexNode_new binset config) = success
  | _ => False
  end.

End GpuFlat.

(** ** The graph index (NSG) *)

Module NSG.

(** Modelled from the spec: [NsgIndex] (impl/nsg/NSG.h) is not among the
    sources.  A Graph Index has a "fixed maximum out-degree R", a "vector
    count n", "one navigation-node id" and "for each node, an ordered list
    of up to R neighbor ids". *)
Record NsgIndex : Type := mkNsg {
  out_degree : nat;
  node_count : nat;
  navigation : nat;
  neighbors : list (list nat)
}.

(** The neighbour list of node [v]; a node the graph does not have has no
    edges. *)
Definition neighbors_of (g : list (list nat)) (v : nat) : list nat :=
  default [] (g !! v).

(** [w] is reachable from [s] by following directed edges. *)
Inductive reachable (g : list (list nat)) (s : nat) : nat -> Prop :=
| reach_root : reachable g s s
| reach_edge v w :
    reachable g s v -> w ∈ neighbors_of g v -> reachable g s w.

(** Modelled from the spec: the traversal of Build step 4 ("run a traversal
    (e.g., depth-first) from the navigation node over the directed edge
    set").  Depth-first with an explicit stack; [fuel] bounds the number of
    pops. *)
Fixpoint DFS (fuel : nat) (g : list (list nat)) (stack : list nat)
    (visited : gset nat) : gset nat :=
  match fuel with
  | O => visited
  | S fuel' =>
      match stack with
      | [] => visited
      | v :: rest =>
          if decide (v ∈ visited)
          then DFS fuel' g rest visited
          else DFS fuel' g (neighbors_of g v ++ rest) ({[v]} ∪ visited)
      end
  end.

(** The number of edges of the nodes of [l] that are not in [visited]. *)
Definition pending (g : list (list nat)) (visited : gset nat) (l : list nat)
    : nat :=
  sum_list
    (map (fun v => if decide (v ∈ visited) then O
                   else length (neighbors_of g v)) l).

(** One pop for the root and one for every edge. *)
Definition dfs_budget (g : list (list nat)) : nat :=
  S (pending g ∅ (seq 0 (length g))).

Definition traverse (g : list (list nat)) (root : nat) : gset nat :=
  DFS (dfs_budget g) g [root] ∅.

(** The traversal visits all [n] nodes. *)
Definition all_visited (n : nat) (visited : gset nat) : bool :=
  forallb (fun v => bool_decide (v ∈ visited)) (seq 0 n).

Section Build.

(** Distances are floating-point numbers in the program; here they are
    values of a type [D] compared by [closer] (strictly smaller). *)
Variable D : Type.
Variable closer : D -> D -> bool.
(** The distance between the vectors of two nodes, and from the vector of
    a node to the approximate centroid of all vectors. *)
Variable dist : nat -> nat -> D.
Variable dist_centroid : nat -> D.
(** The candidate pool Build step 2 obtains for a node, ordered by
    distance. *)
Variable pool : nat -> list nat.
(** Build step 3: seen from [node], the accepted candidate [p] covers the
    direction of the candidate [c]. *)
Variable covers : nat -> nat -> nat -> bool.
(** Build step 4: the position of the weakest edge of a full neighbour
    list. *)
Variable weakest : nat -> list nat -> nat.

(** The first element of [l] that no later element is closer than. *)
Definition nearest (d : nat -> D) (l : list nat) : option nat :=
  foldl (fun best v =>
           match best with
           | None => Some v
           | Some b => if closer (d v) (d b) then Some v else Some b
           end) None l.

(** Modelled from the spec: Build step 1, "the vector nearest the centroid
    becomes the navigation node". *)
Definition navigation_node (n : nat) : nat :=
  default O (nearest dist_centroid (seq 0 n)).

Definition dominated (v c : nat) (accepted : list nat) : bool :=
  existsb (fun p => closer (dist v p) (dist v c) && covers v p c) accepted.

(** Modelled from the spec: Build step 3, "prune the candidate pool to at
    most R neighbors": a candidate is accepted only if it is not dominated
    by an already-accepted, closer candidate; no self-loops, no duplicate
    neighbours. *)
Fixpoint prune (n R v : nat) (cands : list nat) (accepted : list nat)
    : list nat :=
  match cands with
  | [] => accepted
  | c :: cs =>
      if bool_decide (length accepted < R)%nat
         && bool_decide (c < n)%nat
         && bool_decide (c ≠ v)
         && bool_decide (c ∉ accepted)
         && negb (dominated v c accepted)
      then prune n R v cs (accepted ++ [c])
      else prune n R v cs accepted
  end.

(** Modelled from the spec: the edge Build step 4 adds from the reached
    node [p] to the node [u], "respecting the R cap by evicting the node's
    currently-weakest edge if full". *)
Definition link (R : nat) (g : list (list nat)) (p u : nat)
    : list (list nat) :=
  let nb := neighbors_of g p in
  let nb' := if decide (R <= length nb)%nat
             then delete (weakest p nb) nb else nb in
  <[p := nb' ++ [u]]> g.

(** Modelled from the spec: "for every node not reached, link it to the
    nearest already-reached node". *)
Definition repair_round (n R : nat) (visited : gset nat)
    (g : list (list nat)) : list (list nat) :=
  foldl (fun g u =>
           if decide (u ∈ visited) then g
           else
             match nearest (dist u)
                     (filter (fun p => p ∈ visited) (seq 0 n)) with
             | Some p => link R g p u
             | None => g
             end) g (seq 0 n).

(** Modelled from the spec: Build step 4, "repeat until every node is
    reachable from the navigation node".  [None] when [fuel] rounds were
    not enough. *)
Fixpoint repair (fuel : nat) (n R nav : nat) (g : list (list nat))
    : option (list (list nat)) :=
  let visited := traverse g nav in
  if all_visited n visited then Some g
  else
    match fuel with
    | O => None
    | S fuel' => repair fuel' n R nav (repair_round n R visited g)
    end.



(** Modelled from the spec: [Build(vectors, out_degree R,
    candidate_pool_size L)] over [n] vectors.  An out-degree [R <= 0] is
    an [InvalidParameter]; [None] when the repair loop has not finished
    within [fuel] rounds. *)
Definition Build (fuel : nat) (n : nat) (R : Z) (L : nat)
    : option (expected NsgIndex) :=
  if decide (R <= 0) then Some (Err invalid_args "out-degree")
  else
    let r := Z.to_nat R in
    let nav := navigation_node n in
    let g0 := map (fun v => prune n r v (take L (pool v)) []) (seq 0 n) in
    match repair fuel n r nav g0 with
    | Some g => Some (Value (mkNsg r n nav g))
    | None => None
    end.

End Build.

(** *** The persistence format *)

(** An unsigned integer as [w] bytes, least significant first. *)
Definition byte_of_N (x : N) : byte :=
  default x00 (Byte.of_N (x mod 256)%N).

Fixpoint le_split (w : nat) (x : N) : list byte :=
  match w with
  | O => []
  | S w' => byte_of_N x :: le_split w' (x / 256)%N
  end.

Fixpoint le_combine (bs : list byte) : N :=
  match bs with
  | [] => 0%N
  | b :: bs' => (Byte.to_N b + 256 * le_combine bs')%N
  end.

Section Format.

(** The number of bytes of an integer field. *)
Variable int_width : nat.

(** The bytes of an integer field. *)
Definition int_bytes (x : nat) : list byte :=
  le_split int_width (N.of_nat x).

Definition write_int (writer : MemoryIOWriter) (x : nat) : MemoryIOWriter :=
  writer_write writer (int_bytes x).

Definition read_int (reader : MemoryIOReader)
    : option (nat * MemoryIOReader) :=
  match reader_read reader int_width with
  | Some (bs, reader') => Some (N.to_nat (le_combine bs), reader')
  | None => None
  end.

(** "neighbor count (integer) → that many neighbor ids (integers)". *)
Definition write_node (writer : MemoryIOWriter) (nb : list nat)
    : MemoryIOWriter :=
  foldl write_int (write_int writer (length nb)) nb.

(** Modelled from the spec: [write_index] is declared in NSGIO.h and
    defined in a file that is not among the sources.  The fields in their
    fixed order: "out_degree R → node count n → navigation node id → for
    each node in id order: neighbor count → that many neighbor ids". *)
Definition write_index (index : NsgIndex) (writer : MemoryIOWriter)
    : MemoryIOWriter :=
  let w1 := write_int writer (out_degree index) in
  let w2 := write_int w1 (node_count index) in
  let w3 := write_int w2 (navigation index) in
  foldl (fun w v => write_node w (neighbors_of (neighbors index) v))
    w3 (seq 0 (node_count index)).

(** [count] neighbour ids, each checked against [n]. *)
Fixpoint read_ids (n : nat) (count : nat) (reader : MemoryIOReader)
    : option (list nat * MemoryIOReader) :=
  match count with
  | O => Some ([], reader)
  | S count' =>
      match read_int reader with
      | Some (x, reader') =>
          if decide (x < n)%nat then
            match read_ids n count' reader' with
            | Some (xs, reader'') => Some (x :: xs, reader'')
            | None => None
            end
          else None
      | None => None
      end
  end.

(** The neighbour lists of [nodes] nodes. *)
Fixpoint read_nodes (n : nat) (nodes : nat) (reader : MemoryIOReader)
    : option (list (list nat) * MemoryIOReader) :=
  match nodes with
  | O => Some ([], reader)
  | S nodes' =>
      match read_int reader with
      | Some (count, reader') =>
          match read_ids n count reader' with
          | Some (nb, reader'') =>
              match read_nodes n nodes' reader'' with
              | Some (g, reader''') => Some (nb :: g, reader''')
              | None => None
              end
          | None => None
          end
      | None => None
      end
  end.

(** The bytes [write_node] and [write_index] append. *)
Definition node_bytes (nb : list nat) : list byte :=
  int_bytes (length nb) ++ concat (map int_bytes nb).

Definition index_bytes (index : NsgIndex) : list byte :=
  int_bytes (out_degree index) ++ int_bytes (node_count index)
    ++ int_bytes (navigation index)
    ++ concat (map (fun v => node_bytes (neighbors_of (neighbors index) v))
                 (seq 0 (node_count index))).

(** Every field of the index fits an integer field of the format. *)
Definition fits (index : NsgIndex) : Prop :=
  let bound := (256 ^ N.of_nat int_width)%N in
  (N.of_nat (out_degree index) < bound)%N
  /\ (N.of_nat (node_count index) < bound)%N
  /\ (N.of_nat (navigation index) < bound)%N
  /\ Forall (fun nb => (N.of_nat (length nb) < bound)%N
                       /\ Forall (fun x => (N.of_nat x < bound)%N) nb)
       (neighbors index).

(** The ids the index stores name nodes it has. *)
Definition in_range (index : NsgIndex) : Prop :=
  (navigation index < node_count index)%nat
  /\ Forall (Forall (fun x => (x < node_count index)%nat)) (neighbors index).

(** Modelled from the spec: [read_index] is declared in NSGIO.h and defined
    in a file that is not among the sources.  It reads the fields in the
    order [write_index] wrote them and "must validate that navigation node
    id < n and every neighbor id < n"; [None] is the null result. *)
Definition read_index (reader : MemoryIOReader) : option NsgIndex :=
  match read_int reader with
  | Some (R, r1) =>
      match read_int r1 with
      | Some (n, r2) =>
          match read_int r2 with
          | Some (nav, r3) =>
              if decide (nav < n)%nat then
                match read_nodes n n r3 with
                | Some (g, _) => Some (mkNsg R n nav g)
                | None => None
                end
              else None
          | None => None
          end
      | None => None
      end
  | None => None
  end.

(** Modelled from the spec: Serialize and Deserialize of the graph index
    node under the Index Node Contract; [ty] is the type name of the index
    and [None] the Empty state.  "Serialize on Empty fails with
    EmptyIndex"; Deserialize "on a malformed or foreign-typed blob fails
    with InvalidBinarySet" and a failed Deserialize "must leave the index
    in Empty". *)
Definition Serialize (ty : string) (node : option NsgIndex)
    (binset : gmap string Binary) : gmap string Binary * Status :=
  match node with
  | None => (binset, empty_index)
  | Some index =>
      let writer := write_index index writer_new in
      (Append binset ty (w_data writer) (tellg writer), success)
  end.

Definition Deserialize (ty : string) (node : option NsgIndex)
    (binset : gmap string Binary) : option NsgIndex * Status :=
  match GetByName binset ty with
  | None => (None, invalid_binary_set)
  | Some binary =>
      match read_index (reader_new (data binary) (size binary)) with
      | Some index => (Some index, success)
      | None => (None, invalid_binary_set)
      end
  end.

End Format.

(** A neighbour list within the bounds of the data model: at most [R]
    ids, each the id of one of the [n] nodes. *)
Definition bounded (n R : nat) (nb : list nat) : Prop :=
  (length nb <= R)%nat /\ Forall (fun x => (x < n)%nat) nb.

(** The invariant of a graph index that can be persisted: one neighbour
    list per node, ids that name nodes, fields that fit the format. *)
Definition valid (int_width : nat) (index : NsgIndex) : Prop :=
  length (neighbors index) = node_count index
  /\ in_range index
  /\ fits int_width index.

End NSG.

(** ** A small instance of the interfaces, for the examples *)

Module Example.

(** A stand-in for the external library: a flat index over one-byte
    scalars, written as a tag byte, the dimension, the metric and the
    stored scalars. *)
Record RefIndex : Type := mkRef {
  ref_d : Z;
  ref_metric : MetricType;
  ref_xb : list byte;
  ref_on_gpu : bool
}.

Definition ref_ntotal (i : RefIndex) : Z :=
  Z.of_nat (length (ref_xb i)) / ref_d i.

Definition ref_write (i : RefIndex) : except (list byte) :=
  Done (x49 :: NSG.byte_of_N (Z.to_N (ref_d i))
            :: (match ref_metric i with
                | METRIC_INNER_PRODUCT => x00
                | METRIC_L2 => x01
                end)
            :: ref_xb i).

Definition ref_read (bs : list byte) : except RefIndex :=
  match bs with
  | x49 :: d :: x00 :: xb =>
      Done (mkRef (Z.of_N (Byte.to_N d)) METRIC_INNER_PRODUCT xb false)
  | x49 :: d :: x01 :: xb =>
      Done (mkRef (Z.of_N (Byte.to_N d)) METRIC_L2 xb false)
  | _ => Throw "Index type not recognized"
  end.

Definition ref_search (i : RefIndex) (nq : Z) (x : list byte) (kk : Z)
    (bitset : BitsetView) : except (nat -> nat -> Z * byte) :=
  Done (fun q j =>
          if bool_decide (Z.of_nat j < ref_ntotal i)
             && negb (bitset (Z.of_nat j))
          then (Z.of_nat j, x00) else (-1, xff)).

Definition ref_reconstruct (i : RefIndex) (key : Z)
    : except (nat -> byte) :=
  if bool_decide (0 <= key < ref_ntotal i)
  then Done (fun j => nth (Z.to_nat (key * ref_d i) + j) (ref_xb i) x00)
  else Throw "key out of range".

#[local] Instance ref_faiss : FaissLib := {|
  Scalar := byte;
  Index := RefIndex;
  Res := nat;
  index_d := ref_d;
  index_ntotal := ref_ntotal;
  IndexFlat := fun d m => mkRef d m [] false;
  index_add := fun i n x =>
    Done (mkRef (ref_d i) (ref_metric i) (ref_xb i ++ x) (ref_on_gpu i));
  index_search := ref_search;
  index_reconstruct := ref_reconstruct;
  faiss_write_index := ref_write;
  faiss_read_index := ref_read;
  index_cpu_to_gpu := fun _ i =>
    Done (mkRef (ref_d i) (ref_metric i) (ref_xb i) true);
  GetRes := O
|}.

Definition metrics : gmap string MetricType :=
  {[ "L2" := METRIC_L2; "IP" := METRIC_INNER_PRODUCT ]}.

Definition type_name : string := "GPU_FLAT".

Definition cfg_L2 : Config := mkConfig "L2" 2.
Definition cfg_bad : Config := mkConfig "JACCARD" 2.

(** Two vectors of dimension 2. *)
Definition two_vectors : DataSet :=
  mkDataSet 2 2 [Some x01; Some x02; Some x03; Some x04] [] [].

(** Two ids to look up. *)
Definition two_ids : DataSet :=
  mkDataSet 2 2 [] [Some 1; Some 0] [].

(** No id to look up. *)
Definition no_ids : DataSet := mkDataSet 0 2 [] [] [].

(** One id and a negative dimension. *)
Definition negative_dim : DataSet := mkDataSet 1 (-2) [] [Some 1] [].

Definition fresh : GpuFlatIndexNode := GpuFlatIndexNode_new.

(** The node after Train and Add on [two_vectors]. *)
Definition trained : GpuFlatIndexNode :=
  fst (Train metrics fresh two_vectors cfg_L2).

Definition added : GpuFlatIndexNode :=
  match Add trained two_vectors cfg_L2 with
  | Returns (node, _) => node
  | Fault _ => trained
  end.

(** The node after Deserialize of what [added] serialized: it holds the
    GPU copy of the index and the resource. *)
Definition loaded : GpuFlatIndexNode :=
  fst (Deserialize type_name fresh (fst (Serialize type_name added ∅)) cfg_L2).

(** A blob the reader of the library rejects. *)
Definition garbage : gmap string Binary :=
  Append ∅ type_name [x00; x01; x02; x03] 4.

(** The same library on a device whose search fails. *)
Definition broken_faiss : FaissLib := {|
  Scalar := byte;
  Index := RefIndex;
  Res := nat;
  index_d := ref_d;
  index_ntotal := ref_ntotal;
  IndexFlat := fun d m => mkRef d m [] false;
  index_add := fun i n x =>
    Done (mkRef (ref_d i) (ref_metric i) (ref_xb i ++ x) (ref_on_gpu i));
  index_search := fun _ _ _ _ _ => Throw "device error";
  index_reconstruct := ref_reconstruct;
  faiss_write_index := ref_write;
  faiss_read_index := ref_read;
  index_cpu_to_gpu := fun _ i =>
    Done (mkRef (ref_d i) (ref_metric i) (ref_xb i) true);
  GetRes := O
|}.

Definition broken_added : GpuFlatIndexNode (H := broken_faiss) :=
  mkNode (H := broken_faiss) None
    (Some (mkRef 2 METRIC_L2 [x01; x02; x03; x04] false)).

Definition broken_loaded : GpuFlatIndexNode (H := broken_faiss) :=
  mkNode (H := broken_faiss) (Some O)
    (Some (mkRef 2 METRIC_L2 [x01; x02; x03; x04] true)).

Definition broken_queries : DataSet (H := broken_faiss) :=
  mkDataSet (H := broken_faiss) 2 2
    [Some x01; Some x02; Some x03; Some x04] [] [].









Definition line_graph : list (list nat) :=
  [[1; 2; 4]; [3]; [4]; [1]; [2]]%nat.

Definition line_index : NSG.NsgIndex := NSG.mkNsg 3 5 0 line_graph.

(** The same graph with an edge to a node it does not have. *)
Definition bad_index : NSG.NsgIndex :=
  NSG.mkNsg 3 5 0 [[1; 2; 4]; [3]; [5]; [1]; [2]]%nat.


Definition no_bits : BitsetView := fun _ => false.

(** Two ids, the second of no stored vector. *)
Definition missing_id : DataSet :=
  mkDataSet 2 2 [] [Some 1; Some 7] [].

(** A sequence of calls: two that fail, then Train, Add and a Deserialize
    that fails. *)
Definition session : list (call (H := ref_faiss)) :=
  [ call_Train two_vectors cfg_bad;
    call_Deserialize garbage cfg_L2;
    call_Train two_vectors cfg_L2;
    call_Add two_vectors cfg_L2;
    call_Deserialize ∅ cfg_L2 ].

(** The same library without a usable device: the copy to the GPU
    fails. *)
Definition no_gpu_faiss : FaissLib := {|
  Scalar := byte;
  Index := RefIndex;
  Res := nat;
  index_d := ref_d;
  index_ntotal := ref_ntotal;
  IndexFlat := fun d m => mkRef d m [] false;
  index_add := fun i n x =>
    Done (mkRef (ref_d i) (ref_metric i) (ref_xb i ++ x) (ref_on_gpu i));
  index_search := ref_search;
  index_reconstruct := ref_reconstruct;
  faiss_write_index := ref_write;
  faiss_read_index := ref_read;
  index_cpu_to_gpu := fun _ _ => Throw "no device";
  GetRes := O
|}.

Definition no_gpu_added : GpuFlatIndexNode (H := no_gpu_faiss) :=
  mkNode (H := no_gpu_faiss) None
    (Some (mkRef 2 METRIC_L2 [x01; x02; x03; x04] false)).

End Example.

(** * Properties *)

(** ** Heap arrays *)

Section Buffers.
Context {A : Type}.
Implicit Types (buf : buffer A).

Lemma new_array_length (len : Z) :
  length (new_array (A := A) len) = Z.to_nat len.
Proof. unfold new_array. apply length_replicate. Qed.

Lemma write_row_length off kk row j buf :
  length (write_row off kk row j buf) = length buf.
Proof.
  revert j buf. induction kk as [|kk IH]; intros j buf; simpl; [done|].
  rewrite IH. apply length_insert.
Qed.

(** A cell outside [off + j .. off + j + kk) keeps its content. *)
Lemma write_row_lookup_other off kk row j buf p :
  (p < off + j \/ off + j + kk <= p)%nat ->
  write_row off kk row j buf !! p = buf !! p.
Proof.
  revert j buf. induction kk as [|kk IH]; intros j buf Hp; simpl; [done|].
  rewrite IH by lia. apply list_lookup_insert_ne. lia.
Qed.

(** A cell of the row holds the entry of its rank. *)
Lemma write_row_lookup off kk row j buf i :
  (j <= i < j + kk)%nat -> (off + i < length buf)%nat ->
  write_row off kk row j buf !! (off + i)%nat = Some (Some (row i)).
Proof.
  revert j buf. induction kk as [|kk IH]; intros j buf Hi Hlen; simpl; [lia|].
  destruct (decide (i = j)) as [->|Hne].
  - rewrite write_row_lookup_other by lia.
    apply list_lookup_insert_eq. done.
  - apply IH; [lia|]. rewrite length_insert. done.
Qed.

Lemma write_rows_length nq kk res q buf :
  length (write_rows nq kk res q buf) = length buf.
Proof.
  revert q buf. induction nq as [|nq IH]; intros q buf; simpl; [done|].
  rewrite IH. apply write_row_length.
Qed.

Lemma write_rows_lookup_other nq kk res q buf p :
  (p < q * kk \/ (q + nq) * kk <= p)%nat ->
  write_rows nq kk res q buf !! p = buf !! p.
Proof.
  revert q buf. induction nq as [|nq IH]; intros q buf Hp; simpl; [done|].
  rewrite IH by (simpl; nia). apply write_row_lookup_other. nia.
Qed.

(** Row-major layout: the entry of rank [j] of query [i] is the cell
    [i * kk + j]. *)
Lemma write_rows_lookup nq kk res q buf i j :
  (q <= i < q + nq)%nat -> (j < kk)%nat ->
  ((q + nq) * kk <= length buf)%nat ->
  write_rows nq kk res q buf !! (i * kk + j)%nat = Some (Some (res i j)).
Proof.
  revert q buf. induction nq as [|nq IH]; intros q buf Hi Hj Hlen; simpl; [lia|].
  destruct (decide (i = q)) as [->|Hne].
  - rewrite write_rows_lookup_other by (simpl; nia).
    apply write_row_lookup; [lia|nia].
  - apply IH; [lia|done|]. rewrite write_row_length. nia.
Qed.

(** After the rows [0 .. nq) are written, an array of [nq * kk] cells has
    no cell left unwritten. *)
Lemma write_rows_filled nq kk res buf :
  length buf = (nq * kk)%nat -> filled (write_rows nq kk res 0 buf).
Proof.
  intros Hlen. apply Forall_lookup_2. intros p c Hp.
  assert (p < nq * kk)%nat as Hlt.
  { apply lookup_lt_Some in Hp. rewrite write_rows_length in Hp. lia. }
  assert (kk <> 0)%nat as Hk by nia.
  assert (p = (p / kk) * kk + p mod kk)%nat as Heq.
  { rewrite (Nat.div_mod p kk Hk) at 1. lia. }
  assert (p / kk < nq)%nat as Hq.
  { apply Nat.Div0.div_lt_upper_bound. lia. }
  assert (p mod kk < kk)%nat as Hj by (apply Nat.mod_upper_bound; done).
  rewrite Heq in Hp.
  rewrite (write_rows_lookup nq kk res 0 buf (p / kk) (p mod kk)) in Hp
    by (simpl; lia).
  inversion Hp. eauto.
Qed.

End Buffers.

(** ** The GPU flat index node *)

Section GpuFlatProperties.
Context `{FaissLib}.
Variable metric_map : gmap string MetricType.
Variable INDEX_FAISS_GPU_IDMAP : string.


Lemma reader_new_rest (bs : list byte) :
  reader_rest (reader_new bs (Z.of_nat (length bs))) = bs.
Proof.
  unfold reader_rest, reader_new. simpl.
  rewrite Nat2Z.id, drop_0. apply take_ge. lia.
Qed.

(** The arrays [Search] hands to [GenResultDataSet] after a search that
    returned. *)
Lemma Search_done node dataset cfg bitset index handle res :
  index_ node = Some index ->
  res_ node = Some handle ->
  0 <= k cfg * rows dataset ->
  index_search index (rows dataset) (GetTensor dataset) (k cfg) bitset
    = Done res ->
  Search node dataset cfg bitset =
    Returns
      (Value (GenResultDataSet (rows dataset) (k cfg)
                (write_rows (Z.to_nat (rows dataset)) (Z.to_nat (k cfg))
                   (fun q j => fst (res q j)) 0
                   (new_array (k cfg * rows dataset)))
                (write_rows (Z.to_nat (rows dataset)) (Z.to_nat (k cfg))
                   (fun q j => snd (res q j)) 0
                   (new_array (k cfg * rows dataset))))).
Proof.
  intros Hi Hr Hlen Hs. unfold Search. rewrite Hi, Hr, Hs.
  rewrite decide_False by lia. reflexivity.
Qed.

Lemma result_array_length {A : Type} (nq kk : Z) :
  0 <= nq -> 0 <= kk ->
  length (new_array (A := A) (kk * nq)) = (Z.to_nat nq * Z.to_nat kk)%nat.
Proof. intros Hn Hk. rewrite new_array_length. nia. Qed.

(** C5: Search on a node whose index pointer is null (nothing trained or
    loaded) returns the [empty_index] error and no result; it returns that
    error in no other state. *)
Theorem Search_empty_index node dataset cfg bitset :
  index_ node = None <->
  Search node dataset cfg bitset
  = Returns (Err empty_index "index not loaded").
Proof.
  unfold Search. split.
  - intros ->. reflexivity.
  - destruct (index_ node) as [index|]; [|done].
    case_decide; [discriminate|].
    destruct (ResScope _ _); [|discriminate].
    destruct (index_search _ _ _ _ _); discriminate.
Qed.

(** C6: on a node that holds an index and the handle of its resource,
    when the backend search throws, Search returns [faiss_inner_error] for
    the whole call; when it returns, the result carries two arrays of
    [nq * k] cells none of which is left unwritten. *)
Theorem Search_all_or_nothing node dataset cfg bitset index handle :
  index_ node = Some index ->
  res_ node = Some handle ->
  0 <= rows dataset -> 0 <= k cfg ->
  match index_search index (rows dataset) (GetTensor dataset) (k cfg) bitset with
  | Throw what =>
      Search node dataset cfg bitset = Returns (Err faiss_inner_error what)
  | Done _ =>
      exists r, Search node dataset cfg bitset = Returns (Value r)
        /\ length (ids r) = Z.to_nat (rows dataset * k cfg)
        /\ length (distance r) = Z.to_nat (rows dataset * k cfg)
        /\ filled (ids r) /\ filled (distance r)
  end.
Proof.
  intros Hi Hr Hn Hk.
  assert (0 <= k cfg * rows dataset) as Hlen by nia.
  destruct (index_search _ _ _ _ _) as [res|what] eqn:Hs.
  - eexists. split; [apply (Search_done _ _ _ _ _ _ _ Hi Hr Hlen Hs)|].
    simpl. rewrite !write_rows_length, !new_array_length.
    repeat split; try (f_equal; lia);
      apply write_rows_filled, result_array_length; done.
  - unfold Search. rewrite Hi, Hr, Hs. rewrite decide_False by lia.
    reflexivity.
Qed.

(** C9: a successful Search over [nq] queries with [k] neighbours each, on
    a node that holds an index and the handle of its resource, returns a
    data set of [nq] rows of [k] entries whose id and distance arrays both
    have [nq * k] cells, the entry of rank [j] of query [q] at cell
    [q * k + j] of each. *)
Theorem Search_result_layout node dataset cfg bitset index handle res :
  index_ node = Some index ->
  res_ node = Some handle ->
  index_search index (rows dataset) (GetTensor dataset) (k cfg) bitset
    = Done res ->
  0 <= rows dataset -> 0 <= k cfg ->
  exists r, Search node dataset cfg bitset = Returns (Value r)
    /\ rows r = rows dataset /\ dim r = k cfg
    /\ length (ids r) = Z.to_nat (rows dataset * k cfg)
    /\ length (distance r) = Z.to_nat (rows dataset * k cfg)
    /\ forall q j : nat,
         Z.of_nat q < rows dataset -> Z.of_nat j < k cfg ->
         ids r !! (q * Z.to_nat (dim r) + j)%nat
         = Some (Some (fst (res q j)))
         /\ distance r !! (q * Z.to_nat (dim r) + j)%nat
              = Some (Some (snd (res q j))).
Proof.
  intros Hi Hr Hs Hn Hk.
  assert (0 <= k cfg * rows dataset) as Hlen by nia.
  eexists. split; [apply (Search_done _ _ _ _ _ _ _ Hi Hr Hlen Hs)|].
  simpl. rewrite !write_rows_length, !new_array_length.
  repeat split; try (f_equal; lia).
  - apply (write_rows_lookup _ _ (fun q j => fst (res q j))); try lia.
    rewrite result_array_length by done. simpl. lia.
  - apply (write_rows_lookup _ _ (fun q j => snd (res q j))); try lia.
    rewrite result_array_length by done. simpl. lia.
Qed.

(** C7: Train with a metric name the table does not have fails with
    [invalid_metric_type] and leaves the node as it was, so an Empty node
    stays Empty; with a name the table has it succeeds and the node holds
    a flat index of that metric. *)
Theorem Train_metric node dataset cfg :
  (metric_map !! metric_type cfg = None ->
   Train metric_map node dataset cfg = (node, invalid_metric_type)
   /\ (is_empty node -> is_empty (fst (Train metric_map node dataset cfg))))
  /\ (forall m, metric_map !! metric_type cfg = Some m ->
      Train metric_map node dataset cfg
        = (mkNode (res_ node) (Some (IndexFlat (dim dataset) m)), success)
      /\ ~ is_empty (fst (Train metric_map node dataset cfg))).
Proof.
  unfold Train, Str2FaissMetricType, is_empty. split.
  - intros ->. done.
  - intros m ->. done.
Qed.

(** C8: Serialize on a node whose index pointer is null fails with
    [empty_index] and leaves the binary set alone; when it succeeds, the
    binary set has gained the one entry named by the type of the index,
    holding the bytes the library wrote and their count, and every other
    name is as before. *)
Theorem Serialize_entry node binset :
  (index_ node = None ->
   Serialize INDEX_FAISS_GPU_IDMAP node binset = (binset, empty_index))
  /\ (forall binset',
      Serialize INDEX_FAISS_GPU_IDMAP node binset = (binset', success) ->
      exists index bytes,
        index_ node = Some index
        /\ faiss_write_index index = Done bytes
        /\ binset' !! (Type_ INDEX_FAISS_GPU_IDMAP)
           = Some (mkBinary bytes (Z.of_nat (length bytes)))
        /\ (forall name, name <> Type_ INDEX_FAISS_GPU_IDMAP ->
                         binset' !! name = binset !! name)
        /\ dom binset' = {[ Type_ INDEX_FAISS_GPU_IDMAP ]} ∪ dom binset).
Proof.
  unfold Serialize. split.
  - intros ->. reflexivity.
  - intros binset'. destruct (index_ node) as [index|]; [|discriminate].
    destruct (faiss_write_index index) as [bytes|] eqn:Hw; [|discriminate].
    intros [= <-]. exists index, bytes. unfold Append, tellg. simpl.
    split; [reflexivity|]. split; [exact Hw|]. split; [|split].
    + apply lookup_insert_eq.
    + intros name Hne. apply lookup_insert_ne. done.
    + apply dom_insert_L.
Qed.

End GpuFlatProperties.

(** ** The graph index: traversal and connectivity repair *)

Section Traversal.
Import NSG.
Variable g : list (list nat).

Lemma reachable_trans (s v w : nat) :
  reachable g s v -> reachable g v w -> reachable g s w.
Proof.
  intros Hsv Hvw. induction Hvw as [|x y _ IH Hxy]; [done|].
  eapply reach_edge; eauto.
Qed.

(** The traversal only visits nodes that are reachable from the root. *)
Lemma DFS_sound (root : nat) (fuel : nat) (stack : list nat)
    (visited : gset nat) :
  (forall v, v ∈ stack -> reachable g root v) ->
  (forall v, v ∈ visited -> reachable g root v) ->
  forall v, v ∈ DFS fuel g stack visited -> reachable g root v.
Proof.
  revert stack visited.
  induction fuel as [|fuel IH]; intros stack visited Hst Hvis; simpl; [done|].
  destruct stack as [|x rest]; [done|].
  assert (reachable g root x) as Hx by (apply Hst; left).
  case_decide.
  - apply IH; [|done]. intros v Hv. apply Hst. by right.
  - apply IH.
    + intros v [Hv|Hv]%elem_of_app.
      * eapply reach_edge; eauto.
      * apply Hst. by right.
    + intros v [->%elem_of_singleton|Hv]%elem_of_union; auto.
Qed.

Lemma traverse_sound (root v : nat) :
  v ∈ traverse g root -> reachable g root v.
Proof.
  apply DFS_sound.
  - intros x ->%list_elem_of_singleton. constructor.
  - intros x Hx. set_solver.
Qed.

Lemma pending_mono (visited : gset nat) (x : nat) (l : list nat) :
  (pending g ({[x]} ∪ visited) l <= pending g visited l)%nat.
Proof.
  unfold pending. induction l as [|a l IH]; simpl; [done|].
  repeat case_decide; try lia; set_solver.
Qed.

(** Visiting a node takes its edges off the pending ones. *)
Lemma pending_visit (visited : gset nat) (x : nat) (l : list nat) :
  x ∉ visited -> x ∈ l ->
  (pending g ({[x]} ∪ visited) l + length (neighbors_of g x)
   <= pending g visited l)%nat.
Proof.
  intros Hx. unfold pending.
  induction l as [|a l IH]; simpl; intros Hin; [by apply elem_of_nil in Hin|].
  destruct (decide (a = x)) as [->|Hne].
  - pose proof (pending_mono visited x l) as Hm. unfold pending in Hm.
    rewrite decide_True by (apply elem_of_union; left; by apply elem_of_singleton).
    rewrite decide_False by done. lia.
  - apply elem_of_cons in Hin as [->|Hin]; [done|]. specialize (IH Hin).
    destruct (decide (a ∈ visited)) as [Ha|Ha].
    + rewrite decide_True by (apply elem_of_union; by right). lia.
    + rewrite decide_False; [lia|].
      intros [->%elem_of_singleton|]%elem_of_union; done.
Qed.

Lemma pending_visit_graph (visited : gset nat) (x : nat) :
  x ∉ visited ->
  (pending g ({[x]} ∪ visited) (seq 0 (length g)) + length (neighbors_of g x)
   <= pending g visited (seq 0 (length g)))%nat.
Proof.
  intros Hx. destruct (decide (x < length g)%nat) as [Hlt|Hge].
  - apply pending_visit; [done|]. apply elem_of_seq. lia.
  - unfold neighbors_of. rewrite lookup_ge_None_2 by lia. simpl.
    rewrite Nat.add_0_r. apply pending_mono.
Qed.

(** With a pop for every stack entry and every pending edge, the traversal
    ends on a set that holds the stack and the visited nodes and is closed
    under the edges. *)
Lemma DFS_closed (fuel : nat) (stack : list nat) (visited : gset nat) :
  (length stack + pending g visited (seq 0 (length g)) <= fuel)%nat ->
  (forall v w, v ∈ visited -> w ∈ neighbors_of g v ->
               w ∈ visited \/ w ∈ stack) ->
  visited ⊆ DFS fuel g stack visited
  /\ (forall s, s ∈ stack -> s ∈ DFS fuel g stack visited)
  /\ (forall v w, v ∈ DFS fuel g stack visited -> w ∈ neighbors_of g v ->
                  w ∈ DFS fuel g stack visited).
Proof.
  revert stack visited.
  induction fuel as [|fuel IH]; intros stack visited Hfuel Hinv.
  - destruct stack; simpl in *; [|lia].
    split; [done|]. split; [intros s Hs; by apply elem_of_nil in Hs|].
    intros v w Hv Hw. destruct (Hinv v w Hv Hw) as [|Hs]; [done|].
    by apply elem_of_nil in Hs.
  - destruct stack as [|x rest]; simpl in *.
    { split; [done|]. split; [intros s Hs; by apply elem_of_nil in Hs|].
      intros v w Hv Hw. destruct (Hinv v w Hv Hw) as [|Hs]; [done|].
      by apply elem_of_nil in Hs. }
    case_decide as Hx.
    + destruct (IH rest visited) as (Hsub & Hst & Hcl); [lia| |].
      { intros v w Hv Hw.
        destruct (Hinv v w Hv Hw) as [|[->|]%elem_of_cons]; auto. }
      split; [done|]. split; [|done].
      intros s [->|Hs]%elem_of_cons; auto.
    + pose proof (pending_visit_graph visited x Hx) as Hp.
      destruct (IH (neighbors_of g x ++ rest) ({[x]} ∪ visited))
        as (Hsub & Hst & Hcl).
      { rewrite length_app. lia. }
      { intros v w [->%elem_of_singleton|Hv]%elem_of_union Hw.
        - right. apply elem_of_app. by left.
        - destruct (Hinv v w Hv Hw) as [|[->|]%elem_of_cons].
          + left. apply elem_of_union. by right.
          + left. apply elem_of_union. left. by apply elem_of_singleton.
          + right. apply elem_of_app. by right. }
      assert (x ∈ DFS fuel g (neighbors_of g x ++ rest) ({[x]} ∪ visited))
        as Hxin.
      { apply Hsub, elem_of_union. left. by apply elem_of_singleton. }
      split; [etrans; [apply union_subseteq_r|exact Hsub]|]. split; [|done].
      intros s [->|Hs]%elem_of_cons; [done|].
      apply Hst, elem_of_app. by right.
Qed.

(** The traversal visits every node that is reachable from the root. *)
Lemma traverse_complete (root v : nat) :
  reachable g root v -> v ∈ traverse g root.
Proof.
  unfold traverse.
  destruct (DFS_closed (dfs_budget g) [root] ∅) as (_ & Hst & Hcl).
  { unfold dfs_budget. simpl. lia. }
  { intros x w Hx. set_solver. }
  induction 1 as [|x w _ IH Hw].
  - apply Hst. by left.
  - eapply Hcl; eauto.
Qed.

Lemma traverse_reachable (root v : nat) :
  v ∈ traverse g root <-> reachable g root v.
Proof. split; [apply traverse_sound | apply traverse_complete]. Qed.


End Traversal.

Section BuildProperties.
Import NSG.
Variable D : Type.
Variable closer : D -> D -> bool.
Variable dist : nat -> nat -> D.
Variable dist_centroid : nat -> D.
Variable pool : nat -> list nat.
Variable covers : nat -> nat -> nat -> bool.
Variable weakest : nat -> list nat -> nat.

Abbreviation repair := (repair D closer dist weakest).
Abbreviation repair_round := (repair_round D closer dist weakest).
Abbreviation Build := (Build D closer dist dist_centroid pool covers weakest).

Lemma repair_unfold (fuel n R nav : nat) (g : list (list nat)) :
  repair fuel n R nav g =
    if all_visited n (traverse g nav) then Some g
    else match fuel with
         | O => None
         | S fuel' =>
             repair fuel' n R nav (repair_round n R (traverse g nav) g)
         end.
Proof. destruct fuel; reflexivity. Qed.



(** *** What Build keeps: node ids and the degree bound *)

Lemma nearest_step_elem (d : nat -> D) (l : list nat) (best : option nat)
    (v : nat) :
  foldl (fun best v =>
           match best with
           | None => Some v
           | Some b => if closer (d v) (d b) then Some v else Some b
           end) best l = Some v ->
  best = Some v \/ v ∈ l.
Proof.
  revert best. induction l as [|x l IH]; intros best; simpl.
  - intros ->. by left.
  - intros [Hbest|Hin]%IH.
    + destruct best as [b|].
      * destruct (closer (d x) (d b)); injection Hbest as <-.
        -- right. by left.
        -- by left.
      * injection Hbest as <-. right. by left.
    + right. by right.
Qed.

(** The nearest element of a list is one of its elements. *)
Lemma nearest_elem (d : nat -> D) (l : list nat) (v : nat) :
  nearest D closer d l = Some v -> v ∈ l.
Proof.
  intros [Hnone|Hin]%nearest_step_elem; [discriminate|done].
Qed.

Lemma nearest_step_Some (d : nat -> D) (l : list nat) (b : nat) :
  is_Some (foldl (fun best v =>
                    match best with
                    | None => Some v
                    | Some b => if closer (d v) (d b) then Some v else Some b
                    end) (Some b) l).
Proof.
  revert b. induction l as [|x l IH]; intros b; simpl; [eauto|].
  destruct (closer (d x) (d b)); apply IH.
Qed.

Lemma navigation_node_lt (n : nat) :
  (1 <= n)%nat -> (navigation_node D closer dist_centroid n < n)%nat.
Proof.
  intros Hn. unfold navigation_node.
  destruct (nearest D closer dist_centroid (seq 0 n)) as [v|] eqn:Hv.
  - apply nearest_elem, elem_of_seq in Hv. simpl. lia.
  - destruct n as [|n]; [lia|].
    unfold nearest in Hv. simpl in Hv.
    destruct (nearest_step_Some dist_centroid (seq 1 n) 0) as [v Hv'].
    congruence.
Qed.

Lemma prune_bounded (n R v : nat) (cands accepted : list nat) :
  bounded n R accepted -> bounded n R (prune D closer dist covers n R v cands accepted).
Proof.
  revert accepted. induction cands as [|c cs IH]; intros accepted Hb; simpl;
    [done|].
  destruct (bool_decide (length accepted < R)%nat) eqn:Hlen; simpl; [|auto].
  destruct (bool_decide (c < n)%nat) eqn:Hc; simpl; [|auto].
  destruct (_ && _ && _); [|auto].
  apply bool_decide_eq_true in Hlen, Hc. destruct Hb as [Hl Hids].
  apply IH. split.
  - rewrite length_app. simpl. lia.
  - apply Forall_app. split; [done|]. by apply Forall_singleton.
Qed.

Section Repair.
Variable n R : nat.
Hypothesis R_positive : (1 <= R)%nat.
(** The weakest edge of a neighbour list is one of its edges. *)
Hypothesis weakest_lt :
  forall p nb, nb <> [] -> (weakest p nb < length nb)%nat.

Lemma link_bounded (g : list (list nat)) (p u : nat) :
  (u < n)%nat -> Forall (bounded n R) g ->
  Forall (bounded n R) (link weakest R g p u)
  /\ length (link weakest R g p u) = length g.
Proof.
  intros Hu Hg. unfold link. split; [|apply length_insert].
  apply Forall_insert; [done|].
  assert (bounded n R (neighbors_of g p)) as [Hl Hids].
  { unfold neighbors_of. destruct (g !! p) as [nb|] eqn:Hp; simpl.
    - eapply Forall_lookup_1; eauto.
    - split; [simpl; lia|constructor]. }
  split.
  - rewrite length_app. simpl. case_decide as Hfull; [|lia].
    rewrite length_delete; [lia|].
    apply lookup_lt_is_Some_2, weakest_lt.
    intros Hnil. rewrite Hnil in Hfull. simpl in Hfull. lia.
  - apply Forall_app. split; [|by apply Forall_singleton].
    case_decide; [|done]. eapply Forall_delete. done.
Qed.

Lemma repair_round_bounded (visited : gset nat) (g : list (list nat)) :
  Forall (bounded n R) g ->
  Forall (bounded n R) (repair_round n R visited g)
  /\ length (repair_round n R visited g) = length g.
Proof.
  unfold repair_round, NSG.repair_round.
  assert (forall l g0, Forall (fun u => (u < n)%nat) l ->
            Forall (bounded n R) g0 ->
            let g1 :=
              foldl (fun g u =>
                       if decide (u ∈ visited) then g
                       else
                         match nearest D closer (dist u)
                                 (filter (fun p => p ∈ visited) (seq 0 n)) with
                         | Some p => link weakest R g p u
                         | None => g
                         end) g0 l in
            Forall (bounded n R) g1 /\ length g1 = length g0) as Hfold.
  { induction l as [|u l IH]; intros g0 Hl Hg0; simpl; [done|].
    apply Forall_cons in Hl as [Hu Hl].
    case_decide; [by apply IH|].
    destruct (nearest _ _ _) as [p|]; [|by apply IH].
    destruct (link_bounded g0 p u Hu Hg0) as [Hb Hlen].
    destruct (IH _ Hl Hb) as [Hb' Hlen']. split; [done|]. simpl in *. lia. }
  intros Hg. apply Hfold; [|done].
  apply Forall_forall. intros u Hu%elem_of_seq. lia.
Qed.

Lemma repair_bounded (fuel nav : nat) (g g' : list (list nat)) :
  Forall (bounded n R) g ->
  repair fuel n R nav g = Some g' ->
  Forall (bounded n R) g' /\ length g' = length g.
Proof.
  revert g. induction fuel as [|fuel IH]; intros g Hg; rewrite repair_unfold;
    destruct (all_visited n (traverse g nav)).
  - intros [= <-]. done.
  - discriminate.
  - intros [= <-]. done.
  - intros Hrep.
    destruct (repair_round_bounded (traverse g nav) g Hg) as [Hb Hlen].
    destruct (IH _ Hb Hrep) as [Hb' Hlen']. split; [done|]. lia.
Qed.

End Repair.

(** A successfully built index satisfies the invariant of the data model:
    one list of at most [R] neighbour ids per node, each id the id of a
    node, and a navigation node among the nodes. *)
Lemma Build_valid (int_width : nat) (fuel n : nat) (R : Z) (L : nat)
    (index : NsgIndex) :
  (1 <= n)%nat ->
  (forall p nb, nb <> [] -> (weakest p nb < length nb)%nat) ->
  (Z.to_N R < 256 ^ N.of_nat int_width)%N ->
  (N.of_nat n < 256 ^ N.of_nat int_width)%N ->
  Build fuel n R L = Some (Value index) ->
  valid int_width index
  /\ Forall (fun nb => (length nb <= out_degree index)%nat) (neighbors index).
Proof.
  intros Hn Hweak HR Hwn. unfold Build, NSG.Build.
  case_decide as HR0; [discriminate|].
  destruct (repair _ _ _ _ _) as [g|] eqn:Hrep; [|discriminate].
  intros [= <-]. simpl.
  apply repair_bounded in Hrep as [Hb Hlen]; [|lia|done|].
  2:{ apply Forall_forall. intros nb (v & -> & _)%list_elem_of_fmap.
      apply prune_bounded. split; [simpl; lia|constructor]. }
  rewrite length_map, length_seq in Hlen.
  split; [|eapply Forall_impl; [exact Hb|]; by intros nb [? _]].
  split; [done|]. split.
  - split; simpl; [by apply navigation_node_lt|].
    eapply Forall_impl; [exact Hb|]. by intros nb [_ ?].
  - unfold fits. simpl.
    pose proof (navigation_node_lt n Hn) as Hnav.
    split; [lia|]. split; [done|]. split; [lia|].
    eapply Forall_impl; [exact Hb|]. simpl. intros nb [Hl Hids].
    split; [lia|]. eapply Forall_impl; [exact Hids|]. simpl. lia.
Qed.


(** *** Repair without eviction *)












End BuildProperties.

(** ** The graph index: the persistence format *)

Section FormatProperties.
Import NSG.

Lemma byte_of_N_to_N (x : N) : Byte.to_N (byte_of_N x) = (x mod 256)%N.
Proof.
  unfold byte_of_N. destruct (Byte.of_N (x mod 256)) as [b|] eqn:Hb; simpl.
  - by apply Byte.to_of_N.
  - apply Byte.of_N_None_iff in Hb.
    pose proof (N.mod_upper_bound x 256). lia.
Qed.

Lemma le_split_length (w : nat) (x : N) : length (le_split w x) = w.
Proof. revert x. induction w as [|w IH]; intros x; simpl; [done|]. by rewrite IH. Qed.

(** An integer that fits [w] bytes is read back as written. *)
Lemma le_combine_split (w : nat) (x : N) :
  (x < 256 ^ N.of_nat w)%N -> le_combine (le_split w x) = x.
Proof.
  revert x. induction w as [|w IH]; intros x Hx; simpl.
  - simpl in Hx. lia.
  - rewrite Nat2N.inj_succ, N.pow_succ_r' in Hx.
    rewrite byte_of_N_to_N, IH.
    + pose proof (N.div_mod x 256). lia.
    + apply N.Div0.div_lt_upper_bound. lia.
Qed.

Lemma reader_read_app (r : MemoryIOReader) (bs tail : list byte) :
  reader_rest r = bs ++ tail ->
  exists r', reader_read r (length bs) = Some (bs, r')
             /\ reader_rest r' = tail.
Proof.
  intros Hrest. unfold reader_read. rewrite Hrest.
  rewrite decide_True by (rewrite length_app; lia).
  eexists. split; [by rewrite take_app_length|].
  unfold reader_rest in *. simpl.
  rewrite <- drop_drop, Hrest. apply drop_app_length.
Qed.

Variable int_width : nat.

Abbreviation fits_int x := (N.of_nat x < 256 ^ N.of_nat int_width)%N.

Lemma read_int_bytes (r : MemoryIOReader) (x : nat) (tail : list byte) :
  reader_rest r = int_bytes int_width x ++ tail -> fits_int x ->
  exists r', read_int int_width r = Some (x, r') /\ reader_rest r' = tail.
Proof.
  intros Hrest Hx. destruct (reader_read_app r _ _ Hrest) as (r' & Hr & Ht).
  unfold int_bytes in Hr. rewrite le_split_length in Hr.
  exists r'. split; [|done]. unfold read_int. rewrite Hr.
  rewrite le_combine_split by done. by rewrite Nat2N.id.
Qed.

Lemma write_ints_data (w : MemoryIOWriter) (xs : list nat) :
  w_data (foldl (write_int int_width) w xs)
  = w_data w ++ concat (map (int_bytes int_width) xs).
Proof.
  revert w. induction xs as [|x xs IH]; intros w; simpl.
  - by rewrite app_nil_r.
  - rewrite IH. simpl. by rewrite <- app_assoc.
Qed.

Lemma write_node_data (w : MemoryIOWriter) (nb : list nat) :
  w_data (write_node int_width w nb) = w_data w ++ node_bytes int_width nb.
Proof.
  unfold write_node, node_bytes. rewrite write_ints_data. simpl.
  by rewrite <- app_assoc.
Qed.

Lemma write_nodes_data (w : MemoryIOWriter) (f : nat -> list nat)
    (l : list nat) :
  w_data (foldl (fun w v => write_node int_width w (f v)) w l)
  = w_data w ++ concat (map (fun v => node_bytes int_width (f v)) l).
Proof.
  revert w. induction l as [|v l IH]; intros w; simpl.
  - by rewrite app_nil_r.
  - rewrite IH, write_node_data. by rewrite <- app_assoc.
Qed.

(** [write_index] appends the fields in the order of the format. *)
Lemma write_index_data (index : NsgIndex) (w : MemoryIOWriter) :
  w_data (write_index int_width index w)
  = w_data w ++ index_bytes int_width index.
Proof.
  unfold write_index, index_bytes. rewrite write_nodes_data. simpl.
  by rewrite <- !app_assoc.
Qed.

(** Ids in range are read back. *)
Lemma read_ids_ok (n : nat) (xs : list nat) (r : MemoryIOReader)
    (tail : list byte) :
  reader_rest r = concat (map (int_bytes int_width) xs) ++ tail ->
  Forall (fun x => fits_int x) xs ->
  Forall (fun x => (x < n)%nat) xs ->
  exists r', read_ids int_width n (length xs) r = Some (xs, r')
             /\ reader_rest r' = tail.
Proof.
  revert r. induction xs as [|x xs IH]; intros r Hrest Hfit Hlt; simpl in *.
  - eauto.
  - rewrite <- app_assoc in Hrest.
    apply Forall_cons in Hfit as [Hx Hfit]. apply Forall_cons in Hlt as [Hn Hlt].
    destruct (read_int_bytes r x _ Hrest Hx) as (r1 & -> & Hr1).
    rewrite decide_True by done.
    destruct (IH r1 Hr1 Hfit Hlt) as (r2 & -> & Hr2). eauto.
Qed.

(** An id out of range stops the reader. *)
Lemma read_ids_bad (n : nat) (xs : list nat) (r : MemoryIOReader)
    (tail : list byte) :
  reader_rest r = concat (map (int_bytes int_width) xs) ++ tail ->
  Forall (fun x => fits_int x) xs ->
  Exists (fun x => (n <= x)%nat) xs ->
  read_ids int_width n (length xs) r = None.
Proof.
  revert r. induction xs as [|x xs IH]; intros r Hrest Hfit Hbad; simpl in *.
  - by apply Exists_nil in Hbad.
  - rewrite <- app_assoc in Hrest.
    apply Forall_cons in Hfit as [Hx Hfit].
    destruct (read_int_bytes r x _ Hrest Hx) as (r1 & -> & Hr1).
    case_decide as Hn; [|done].
    apply Exists_cons in Hbad as [Hbad|Hbad]; [lia|].
    by rewrite (IH r1 Hr1 Hfit Hbad).
Qed.

Abbreviation fits_nodes nbs :=
  (Forall (fun nb : list nat =>
             fits_int (length nb) /\ Forall (fun x => fits_int x) nb) nbs).

Lemma read_nodes_ok (n : nat) (nbs : list (list nat)) (r : MemoryIOReader)
    (tail : list byte) :
  reader_rest r = concat (map (node_bytes int_width) nbs) ++ tail ->
  fits_nodes nbs ->
  Forall (Forall (fun x => (x < n)%nat)) nbs ->
  exists r', read_nodes int_width n (length nbs) r = Some (nbs, r')
             /\ reader_rest r' = tail.
Proof.
  revert r. induction nbs as [|nb nbs IH]; intros r Hrest Hfit Hlt; simpl in *.
  - eauto.
  - unfold node_bytes in Hrest. rewrite <- !app_assoc in Hrest.
    apply Forall_cons in Hfit as [[Hc Hx] Hfit].
    apply Forall_cons in Hlt as [Hn Hlt].
    destruct (read_int_bytes r _ _ Hrest Hc) as (r1 & -> & Hr1).
    destruct (read_ids_ok n nb r1 _ Hr1 Hx Hn) as (r2 & -> & Hr2).
    destruct (IH r2 Hr2 Hfit Hlt) as (r3 & -> & Hr3). eauto.
Qed.

Lemma read_nodes_bad (n : nat) (nbs : list (list nat)) (r : MemoryIOReader)
    (tail : list byte) :
  reader_rest r = concat (map (node_bytes int_width) nbs) ++ tail ->
  fits_nodes nbs ->
  Exists (Exists (fun x => (n <= x)%nat)) nbs ->
  read_nodes int_width n (length nbs) r = None.
Proof.
  revert r. induction nbs as [|nb nbs IH]; intros r Hrest Hfit Hbad; simpl in *.
  - by apply Exists_nil in Hbad.
  - unfold node_bytes in Hrest. rewrite <- !app_assoc in Hrest.
    apply Forall_cons in Hfit as [[Hc Hx] Hfit].
    destruct (read_int_bytes r _ _ Hrest Hc) as (r1 & -> & Hr1).
    destruct (decide (Forall (fun x => (x < n)%nat) nb)) as [Hn|Hn].
    + destruct (read_ids_ok n nb r1 _ Hr1 Hx Hn) as (r2 & -> & Hr2).
      apply Exists_cons in Hbad as [Hbad|Hbad].
      * exfalso. apply Exists_exists in Hbad as (x & Hin & Hge).
        rewrite Forall_forall in Hn. specialize (Hn x Hin). lia.
      * by rewrite (IH r2 Hr2 Hfit Hbad).
    + rewrite (read_ids_bad n nb r1 _ Hr1 Hx); [done|].
      apply not_Forall_Exists in Hn; [|apply _].
      eapply Exists_impl; [exact Hn|]. simpl. intros x Hx'. lia.
Qed.

Lemma neighbors_of_seq (g : list (list nat)) :
  map (neighbors_of g) (seq 0 (length g)) = g.
Proof.
  apply list_eq. intros i. rewrite list_lookup_fmap.
  destruct (decide (i < length g)%nat) as [Hlt|Hge].
  - rewrite lookup_seq_lt by done. simpl. unfold neighbors_of.
    destruct (lookup_lt_is_Some_2 g i Hlt) as [nb Hnb]. by rewrite Hnb.
  - rewrite lookup_seq_ge by lia. simpl. symmetry. apply lookup_ge_None. lia.
Qed.

Lemma index_bytes_nodes (index : NsgIndex) :
  length (neighbors index) = node_count index ->
  index_bytes int_width index
  = int_bytes int_width (out_degree index)
      ++ int_bytes int_width (node_count index)
      ++ int_bytes int_width (navigation index)
      ++ concat (map (node_bytes int_width) (neighbors index)) ++ [].
Proof.
  intros Hlen. unfold index_bytes. rewrite app_nil_r.
  do 4 f_equal. symmetry.
  rewrite <- (neighbors_of_seq (neighbors index)) at 1.
  by rewrite map_map, Hlen.
Qed.

(** Reading what [write_index] wrote: the index itself when its ids are in
    range, and nothing when one is not. *)
Lemma read_index_bytes (index : NsgIndex) :
  length (neighbors index) = node_count index ->
  fits int_width index ->
  let reader :=
    reader_new (index_bytes int_width index)
      (Z.of_nat (length (index_bytes int_width index))) in
  (in_range index -> read_index int_width reader = Some index)
  /\ (~ in_range index -> read_index int_width reader = None).
Proof.
  intros Hlen (HR & Hn & Hnav & Hnodes) reader.
  assert (reader_rest reader = index_bytes int_width index) as Hrest
    by apply reader_new_rest.
  rewrite index_bytes_nodes in Hrest by done.
  unfold read_index.
  destruct (read_int_bytes reader _ _ Hrest HR) as (r1 & -> & Hr1).
  destruct (read_int_bytes r1 _ _ Hr1 Hn) as (r2 & -> & Hr2).
  destruct (read_int_bytes r2 _ _ Hr2 Hnav) as (r3 & -> & Hr3).
  split.
  - intros [Hlt Hids]. rewrite decide_True by done.
    destruct (read_nodes_ok _ _ r3 _ Hr3 Hnodes Hids) as (r4 & Hr4 & _).
    rewrite Hlen in Hr4. rewrite Hr4. by destruct index.
  - intros Hbad. case_decide as Hlt; [|done].
    pose proof (read_nodes_bad (node_count index) _ r3 _ Hr3 Hnodes) as Hr4.
    rewrite Hlen in Hr4. rewrite Hr4; [done|].
    assert (~ Forall (Forall (fun x => (x < node_count index)%nat))
              (neighbors index)) as Hids.
    { intros Hids. apply Hbad. by split. }
    apply not_Forall_Exists in Hids; [|apply _].
    eapply Exists_impl; [exact Hids|]. simpl. intros nb Hnb.
    apply not_Forall_Exists in Hnb; [|apply _].
    eapply Exists_impl; [exact Hnb|]. simpl. intros x Hx. lia.
Qed.

End FormatProperties.

(** ** Persistence under the index node contract *)

Section GraphPersistence.
Import NSG.
Variable int_width : nat.
Variable ty : string.

Lemma Serialize_graph_entry (index : NsgIndex) (binset : gmap string Binary) :
  NSG.Serialize int_width ty (Some index) binset
  = (Append binset ty (index_bytes int_width index)
       (Z.of_nat (length (index_bytes int_width index))), success).
Proof.
  unfold NSG.Serialize, tellg. by rewrite write_index_data.
Qed.

(** The graph index node reads back the index it wrote. *)
Lemma Deserialize_graph_own (index : NsgIndex) (node : option NsgIndex)
    (binset : gmap string Binary) :
  valid int_width index ->
  NSG.Deserialize int_width ty node
    (fst (NSG.Serialize int_width ty (Some index) binset))
  = (Some index, success).
Proof.
  intros (Hlen & Hrange & Hfits). rewrite Serialize_graph_entry. simpl.
  unfold NSG.Deserialize, GetByName, Append. rewrite lookup_insert_eq. simpl.
  destruct (read_index_bytes int_width index Hlen Hfits) as [Hok _].
  by rewrite (Hok Hrange).
Qed.

(** A blob whose ids do not all name nodes is refused. *)
Lemma Deserialize_graph_out_of_range (index : NsgIndex)
    (node : option NsgIndex) (binset : gmap string Binary) :
  length (neighbors index) = node_count index ->
  fits int_width index ->
  ~ in_range index ->
  NSG.Deserialize int_width ty node
    (fst (NSG.Serialize int_width ty (Some index) binset))
  = (None, invalid_binary_set).
Proof.
  intros Hlen Hfits Hbad. rewrite Serialize_graph_entry. simpl.
  unfold NSG.Deserialize, GetByName, Append. rewrite lookup_insert_eq. simpl.
  destruct (read_index_bytes int_width index Hlen Hfits) as [_ Hno].
  by rewrite (Hno Hbad).
Qed.

Lemma Deserialize_graph_foreign (node : option NsgIndex)
    (binset : gmap string Binary) :
  GetByName binset ty = None ->
  NSG.Deserialize int_width ty node binset = (None, invalid_binary_set).
Proof. intros Hno. unfold NSG.Deserialize. by rewrite Hno. Qed.

End GraphPersistence.

Section BuiltIndexPersistence.
Import NSG.
Variable D : Type.
Variable closer : D -> D -> bool.
Variable dist : nat -> nat -> D.
Variable dist_centroid : nat -> D.
Variable pool : nat -> list nat.
Variable covers : nat -> nat -> nat -> bool.
Variable weakest : nat -> list nat -> nat.

(** An index that Build returned is read back as it was written. *)
Lemma Build_roundtrip (int_width : nat) (ty : string) (fuel n : nat) (R : Z)
    (L : nat) (index : NsgIndex) (node : option NsgIndex)
    (binset : gmap string Binary) :
  (1 <= n)%nat ->
  (forall p nb, nb <> [] -> (weakest p nb < length nb)%nat) ->
  (Z.to_N R < 256 ^ N.of_nat int_width)%N ->
  (N.of_nat n < 256 ^ N.of_nat int_width)%N ->
  NSG.Build D closer dist dist_centroid pool covers weakest fuel n R L
  = Some (Value index) ->
  NSG.Deserialize int_width ty node
    (fst (NSG.Serialize int_width ty (Some index) binset))
  = (Some index, success).
Proof.
  intros Hn Hweak HR Hwn Hbuild. apply Deserialize_graph_own.
  eapply Build_valid; eauto.
Qed.

End BuiltIndexPersistence.

Section Contract.
Context `{FaissLib}.
Variable metric_map : gmap string MetricType.
Variable INDEX_FAISS_GPU_IDMAP : string.


(** What [Deserialize] does with the entry it finds. *)
Lemma Deserialize_entry node binset config binary :
  GetByName binset (Type_ INDEX_FAISS_GPU_IDMAP) = Some binary ->
  Deserialize INDEX_FAISS_GPU_IDMAP node binset config =
    match faiss_read_index
            (reader_rest (reader_new (data binary) (size binary))) with
    | Throw _ => (node, faiss_inner_error)
    | Done index =>
        match index_cpu_to_gpu GetRes index with
        | Throw _ => (node, faiss_inner_error)
        | Done gpu_index => (mkNode (Some GetRes) (Some gpu_index), success)
        end
    end.
Proof. intros Hb. unfold Deserialize. by rewrite Hb. Qed.

Lemma Deserialize_foreign node binset config :
  GetByName binset (Type_ INDEX_FAISS_GPU_IDMAP) = None ->
  Deserialize INDEX_FAISS_GPU_IDMAP node binset config = (node, invalid_binary_set).
Proof. intros Hb. unfold Deserialize. by rewrite Hb. Qed.

(** The node reads back, as a GPU copy, the index it wrote. *)
Lemma Deserialize_own node node0 binset config index bytes gpu_index :
  index_ node = Some index ->
  faiss_write_index index = Done bytes ->
  faiss_read_index bytes = Done index ->
  index_cpu_to_gpu GetRes index = Done gpu_index ->
  snd (Serialize INDEX_FAISS_GPU_IDMAP node binset) = success
  /\ Deserialize INDEX_FAISS_GPU_IDMAP node0
       (fst (Serialize INDEX_FAISS_GPU_IDMAP node binset)) config
     = (mkNode (Some GetRes) (Some gpu_index), success).
Proof.
  intros Hi Hw Hr Hg. unfold Serialize.
  rewrite Hi, Hw. simpl. split; [done|].
  erewrite Deserialize_entry; [|apply lookup_insert_eq]. simpl.
  unfold tellg. simpl. by rewrite reader_new_rest, Hr, Hg.
Qed.

(** C2: Deserialize after Serialize restores the index.  For the graph
    index, an index that satisfies its invariant comes back with the same
    navigation node, the same node count and the same neighbours of every
    node (the same lists, hence the same sets).  For the GPU flat node,
    when the library reads back the index it wrote, the node that
    deserializes holds the GPU copy of that index, with the dimension and
    the count the copy keeps. *)
Theorem Serialize_Deserialize_roundtrip :
  (forall int_width ty index node binset,
     NSG.valid int_width index ->
     snd (NSG.Serialize int_width ty (Some index) binset) = success
     /\ exists index',
          NSG.Deserialize int_width ty node
            (fst (NSG.Serialize int_width ty (Some index) binset))
          = (Some index', success)
          /\ NSG.navigation index' = NSG.navigation index
          /\ NSG.node_count index' = NSG.node_count index
          /\ (forall v,
                list_to_set (NSG.neighbors_of (NSG.neighbors index') v)
                =@{gset nat}
                list_to_set (NSG.neighbors_of (NSG.neighbors index) v))
          /\ index' = index)
  /\ (forall node node0 binset config index bytes gpu_index,
        index_ node = Some index ->
        faiss_write_index index = Done bytes ->
        faiss_read_index bytes = Done index ->
        index_cpu_to_gpu GetRes index = Done gpu_index ->
        snd (Serialize INDEX_FAISS_GPU_IDMAP node binset) = success
        /\ exists node',
             Deserialize INDEX_FAISS_GPU_IDMAP node0
               (fst (Serialize INDEX_FAISS_GPU_IDMAP node binset)) config
             = (node', success)
             /\ index_ node' = Some gpu_index
             /\ ~ is_empty node'
             /\ (index_d gpu_index = index_d index -> Dim node' = Dim node)
             /\ (index_ntotal gpu_index = index_ntotal index ->
                 Count node' = Count node)).
Proof.
  split.
  - intros int_width ty index node binset Hvalid.
    split; [by rewrite Serialize_graph_entry|].
    exists index. by rewrite Deserialize_graph_own.
  - intros node node0 binset config index bytes gpu_index Hi Hw Hr Hg.
    destruct (Deserialize_own node node0 binset config _ _ _ Hi Hw Hr Hg)
      as [Hs Hd].
    split; [done|]. eexists. split; [exact Hd|]. simpl.
    unfold is_empty, Dim, Count. rewrite Hi. simpl.
    repeat split; try done; by intros ->.
Qed.

(** C3, as amended: a Deserialize or a Train that fails leaves the node
    exactly as it was before the call: an Empty node is Empty afterwards,
    and an index trained or loaded earlier stays in place. *)
Theorem failure_keeps_state node binset config dataset :
  (snd (Deserialize INDEX_FAISS_GPU_IDMAP node binset config) <> success ->
   fst (Deserialize INDEX_FAISS_GPU_IDMAP node binset config) = node)
  /\ (snd (Train metric_map node dataset config) <> success ->
      fst (Train metric_map node dataset config) = node)
  /\ (is_empty node ->
      snd (Deserialize INDEX_FAISS_GPU_IDMAP node binset config) <> success ->
      is_empty (fst (Deserialize INDEX_FAISS_GPU_IDMAP node binset config))).
Proof.
  assert (snd (Deserialize INDEX_FAISS_GPU_IDMAP node binset config) <> success ->
          fst (Deserialize INDEX_FAISS_GPU_IDMAP node binset config) = node) as HD.
  { unfold Deserialize.
    destruct (GetByName _ _) as [binary|]; [|done].
    destruct (faiss_read_index _) as [index|]; [|done].
    destruct (index_cpu_to_gpu _ _); done. }
  split; [exact HD|]. split.
  - unfold Train.
    destruct (Str2FaissMetricType _ _); done.
  - intros He Hf. by rewrite (HD Hf).
Qed.

(** C4, as amended: Deserialize of the GPU flat node fails with
    [invalid_binary_set] when the binary set has no entry under the type
    name of the index, and with [faiss_inner_error] when the library
    rejects the bytes of the entry; the node is unchanged either way.
    Deserialize of the graph index fails with [invalid_binary_set] on a
    binary set without its entry and on a blob whose navigation id or some
    neighbour id does not name a node. *)
Theorem Deserialize_rejects node binset config :
  (GetByName binset (Type_ INDEX_FAISS_GPU_IDMAP) = None ->
   Deserialize INDEX_FAISS_GPU_IDMAP node binset config = (node, invalid_binary_set))
  /\ (forall binary what,
        GetByName binset (Type_ INDEX_FAISS_GPU_IDMAP) = Some binary ->
        faiss_read_index
          (reader_rest (reader_new (data binary) (size binary))) = Throw what ->
        Deserialize INDEX_FAISS_GPU_IDMAP node binset config = (node, faiss_inner_error))
  /\ (forall int_width ty graph_node graph_binset,
        GetByName graph_binset ty = None ->
        NSG.Deserialize int_width ty graph_node graph_binset
        = (None, invalid_binary_set))
  /\ (forall int_width ty graph_node graph_binset index,
        length (NSG.neighbors index) = NSG.node_count index ->
        NSG.fits int_width index ->
        ~ NSG.in_range index ->
        NSG.Deserialize int_width ty graph_node
          (fst (NSG.Serialize int_width ty (Some index) graph_binset))
        = (None, invalid_binary_set)).
Proof.
  split; [apply Deserialize_foreign|]. split; [|split].
  - intros binary what Hb Hr. by rewrite (Deserialize_entry _ _ _ _ Hb), Hr.
  - intros. by apply Deserialize_graph_foreign.
  - intros. by apply Deserialize_graph_out_of_range.
Qed.

Lemma reconstruct_loop_null node in_ids d count i xq :
  index_ node = None ->
  exists f, reconstruct_loop node in_ids d (S count) i xq = Fault f
    /\ (forall id_, in_ids !! i = Some (Some id_) -> f = null_index).
Proof.
  intros Hi. simpl. rewrite Hi.
  destruct (in_ids !! i) as [[id_|]|]; eexists; (split; [done|]); done.
Qed.

(** C10, as amended: GetVectorByIds has no guard for a null index pointer
    and never returns the [empty_index] error.  On a node with a null
    index, a call for at least one id with a dimension that is not
    negative runs into undefined behaviour (the dereference of the null
    pointer, once the first id is read), a call for no id returns an empty
    result, and a call whose [nq * dim] is negative returns
    [faiss_inner_error] from the allocation. *)
Theorem GetVectorByIds_null_index node dataset :
  index_ node = None ->
  (forall msg, GetVectorByIds node dataset <> Returns (Err empty_index msg))
  /\ (1 <= rows dataset -> 0 <= dim dataset ->
      exists f, GetVectorByIds node dataset = Fault f)
  /\ (forall id_,
        1 <= rows dataset -> 0 <= dim dataset ->
        ids dataset !! O = Some (Some id_) ->
        GetVectorByIds node dataset = Fault null_index)
  /\ (rows dataset = 0 ->
      GetVectorByIds node dataset
      = Returns (Value (GenResultDataSet_tensor [])))
  /\ (rows dataset * dim dataset < 0 ->
      GetVectorByIds node dataset
      = Returns (Err faiss_inner_error bad_array_new_length)).
Proof.
  intros Hi. unfold GetVectorByIds. split; [|split; [|split; [|split]]].
  - intros msg. case_decide; [discriminate|].
    destruct (reconstruct_loop _ _ _ _ _ _) as [[xq|what]|f]; discriminate.
  - intros Hn Hd. rewrite decide_False by nia.
    destruct (Z.to_nat (rows dataset)) as [|count] eqn:Hc; [lia|].
    destruct (reconstruct_loop_null node (ids dataset)
                (Z.to_nat (dim dataset)) count O
                (new_array (rows dataset * dim dataset)) Hi) as (f & -> & _).
    eauto.
  - intros id_ Hn Hd Hid. rewrite decide_False by nia.
    destruct (Z.to_nat (rows dataset)) as [|count] eqn:Hc; [lia|].
    destruct (reconstruct_loop_null node (ids dataset)
                (Z.to_nat (dim dataset)) count O
                (new_array (rows dataset * dim dataset)) Hi) as (f & -> & Hf).
    by rewrite (Hf id_ Hid).
  - intros ->. rewrite decide_False by lia. done.
  - intros Hneg. by rewrite decide_True.
Qed.

End Contract.

(** ** Examples *)

Section Examples.
Import Example.
#[local] Existing Instance ref_faiss.





Lemma small_fits (x : nat) :
  (x < 256)%nat -> (N.of_nat x < 256 ^ N.of_nat 8)%N.
Proof.
  intros Hx.
  assert ((256 ^ N.of_nat 8)%N = 18446744073709551616%N) as ->
    by (vm_compute; reflexivity).
  lia.
Qed.

Lemma line_index_fits : NSG.fits 8 line_index.
Proof.
  unfold NSG.fits, line_index, line_graph. cbv zeta. simpl.
  split; [apply small_fits; lia|]. split; [apply small_fits; lia|].
  split; [apply small_fits; lia|]. repeat first
    [ apply Forall_nil
    | apply Forall_cons; split
    | apply small_fits; simpl; lia
    | split ].
Qed.

Lemma line_index_valid : NSG.valid 8 line_index.
Proof.
  split; [reflexivity|]. split; [|apply line_index_fits].
  split; [vm_compute; lia|].
  repeat (apply Forall_cons; split); try apply Forall_nil; vm_compute; lia.
Qed.

Lemma Serialize_Deserialize_roundtrip_witness :
  (exists index',
     NSG.Deserialize 8 "NSG" None
       (fst (NSG.Serialize 8 "NSG" (Some line_index) ∅))
     = (Some index', success)
     /\ index' = line_index)
  /\ (exists node',
        Deserialize type_name fresh (fst (Serialize type_name added ∅)) cfg_L2
        = (node', success)
        /\ index_ node'
           = Some (mkRef 2 METRIC_L2 [x01; x02; x03; x04] true)).
Proof.
  destruct (Serialize_Deserialize_roundtrip (H := ref_faiss) type_name)
    as [Hgraph Hflat].
  split.
  - destruct (Hgraph 8%nat "NSG"%string line_index None ∅ line_index_valid)
      as (_ & index' & Hd & _ & _ & _ & Heq).
    exists index'. by split.
  - destruct (Hflat added fresh ∅ cfg_L2
                (mkRef 2 METRIC_L2 [x01; x02; x03; x04] false)
                [x49; x02; x01; x01; x02; x03; x04]
                (mkRef 2 METRIC_L2 [x01; x02; x03; x04] true)
                eq_refl eq_refl eq_refl eq_refl)
      as (_ & node' & Hd & Hi & _).
    exists node'. by split.
Defined.

Lemma Deserialize_failure_keeps_stale_index :
  snd (Deserialize type_name added ∅ cfg_L2) = invalid_binary_set
  /\ ~ is_empty (fst (Deserialize type_name added ∅ cfg_L2))
  /\ snd (Deserialize type_name loaded ∅ cfg_L2) = invalid_binary_set
  /\ exists r,
       Search (fst (Deserialize type_name loaded ∅ cfg_L2)) two_vectors
         cfg_L2 no_bits = Returns (Value r).
Proof.
  rewrite !Deserialize_foreign by apply lookup_empty. simpl.
  split; [done|]. split; [discriminate|]. split; [done|].
  eexists. vm_compute. reflexivity.
Qed.

Lemma failure_keeps_state_witness :
  snd (Deserialize type_name added garbage cfg_L2) <> success
  /\ fst (Deserialize type_name added garbage cfg_L2) = added
  /\ snd (Train metrics fresh two_vectors cfg_bad) <> success
  /\ fst (Train metrics fresh two_vectors cfg_bad) = fresh.
Proof.
  destruct (failure_keeps_state (H := ref_faiss) metrics type_name added
              garbage cfg_L2 two_vectors) as (HD & _ & _).
  destruct (failure_keeps_state (H := ref_faiss) metrics type_name fresh
              garbage cfg_bad two_vectors) as (_ & HT & _).
  assert (snd (Deserialize type_name added garbage cfg_L2) <> success) as Hd.
  { erewrite Deserialize_entry by apply lookup_insert_eq. discriminate. }
  assert (snd (Train metrics fresh two_vectors cfg_bad) <> success) as Ht.
  { vm_compute. discriminate. }
  split; [exact Hd|]. split; [exact (HD Hd)|]. split; [exact Ht|exact (HT Ht)].
Defined.

Lemma Deserialize_malformed_is_inner_error :
  Deserialize type_name fresh garbage cfg_L2 = (fresh, faiss_inner_error)
  /\ snd (Deserialize type_name fresh garbage cfg_L2) <> invalid_binary_set.
Proof.
  erewrite Deserialize_entry by apply lookup_insert_eq. simpl.
  split; [reflexivity|discriminate].
Qed.

Lemma bad_index_out_of_range : ~ NSG.in_range bad_index.
Proof.
  intros [_ Hids]. unfold bad_index in Hids. simpl in Hids.
  apply Forall_cons in Hids as [_ Hids].
  apply Forall_cons in Hids as [_ Hids].
  apply Forall_cons in Hids as [Hbad _].
  apply Forall_cons in Hbad as [Hbad _]. lia.
Qed.

Lemma bad_index_fits : NSG.fits 8 bad_index.
Proof.
  unfold NSG.fits, bad_index. cbv zeta. simpl.
  split; [apply small_fits; lia|]. split; [apply small_fits; lia|].
  split; [apply small_fits; lia|]. repeat first
    [ apply Forall_nil
    | apply Forall_cons; split
    | apply small_fits; simpl; lia
    | split ].
Qed.

Lemma Deserialize_rejects_witness :
  Deserialize type_name added ∅ cfg_L2 = (added, invalid_binary_set)
  /\ Deserialize type_name added garbage cfg_L2 = (added, faiss_inner_error)
  /\ NSG.Deserialize 8 "NSG" (Some line_index)
       (fst (NSG.Serialize 8 "NSG" (Some bad_index) ∅))
     = (None, invalid_binary_set).
Proof.
  destruct (Deserialize_rejects (H := ref_faiss) type_name added ∅ cfg_L2)
    as (Hforeign & _ & _ & Hrange).
  destruct (Deserialize_rejects (H := ref_faiss) type_name added garbage cfg_L2)
    as (_ & Hthrow & _).
  split; [apply Hforeign, lookup_empty|]. split.
  - eapply Hthrow; [apply lookup_insert_eq|]. reflexivity.
  - apply Hrange; [reflexivity|apply bad_index_fits|apply bad_index_out_of_range].
Defined.

Lemma Search_empty_index_witness :
  Search fresh two_vectors cfg_L2 no_bits
  = Returns (Err empty_index "index not loaded").
Proof.
  apply (Search_empty_index (H := ref_faiss) fresh two_vectors cfg_L2 no_bits).
  reflexivity.
Defined.

Lemma loaded_node :
  loaded = mkNode (Some O) (Some (mkRef 2 METRIC_L2 [x01; x02; x03; x04] true)).
Proof. vm_compute. reflexivity. Qed.

Lemma Search_all_or_nothing_witness :
  Search broken_loaded broken_queries cfg_L2 no_bits
  = Returns (Err faiss_inner_error "device error").
Proof.
  exact (Search_all_or_nothing (H := broken_faiss) broken_loaded broken_queries
           cfg_L2 no_bits (mkRef 2 METRIC_L2 [x01; x02; x03; x04] true) O
           eq_refl eq_refl ltac:(discriminate) ltac:(discriminate)).
Defined.

Lemma Search_result_layout_witness :
  exists r, Search loaded two_vectors cfg_L2 no_bits = Returns (Value r)
    /\ rows r = 2 /\ dim r = 2
    /\ length (ids r) = 4%nat
    /\ length (distance r) = 4%nat
    /\ ids r !! 3%nat = Some (Some 1).
Proof.
  assert (index_ loaded
          = Some (mkRef 2 METRIC_L2 [x01; x02; x03; x04] true)) as Hi
    by (by rewrite loaded_node).
  assert (res_ loaded = Some O) as Hh by (by rewrite loaded_node).
  destruct (Search_result_layout (H := ref_faiss) loaded two_vectors cfg_L2
              no_bits (mkRef 2 METRIC_L2 [x01; x02; x03; x04] true) O
              (fun q j =>
                 if bool_decide (Z.of_nat j < 2) && negb (no_bits (Z.of_nat j))
                 then (Z.of_nat j, x00) else (-1, xff))
              Hi Hh eq_refl ltac:(discriminate) ltac:(discriminate))
    as (r & Hr & Hrows & Hdim & Hids & Hdis & Hcell).
  exists r. repeat split; try done.
  destruct (Hcell 1%nat 1%nat ltac:(simpl; lia) ltac:(simpl; lia)) as [Hc _].
  rewrite Hdim in Hc. exact Hc.
Defined.

Lemma Train_metric_witness :
  Train metrics fresh two_vectors cfg_bad = (fresh, invalid_metric_type)
  /\ Train metrics fresh two_vectors cfg_L2
     = (mkNode None (Some (mkRef 2 METRIC_L2 [] false)), success).
Proof.
  destruct (Train_metric (H := ref_faiss) metrics fresh two_vectors cfg_bad)
    as [Hbad _].
  destruct (Train_metric (H := ref_faiss) metrics fresh two_vectors cfg_L2)
    as [_ Hgood].
  split.
  - apply Hbad. vm_compute. reflexivity.
  - apply (Hgood METRIC_L2). vm_compute. reflexivity.
Defined.

Lemma Serialize_entry_witness :
  Serialize type_name fresh ∅ = (∅, empty_index)
  /\ exists index bytes,
       index_ added = Some index
       /\ fst (Serialize type_name added ∅) !! type_name
          = Some (mkBinary bytes (Z.of_nat (length bytes))).
Proof.
  destruct (Serialize_entry (H := ref_faiss) type_name fresh ∅) as [Hempty _].
  destruct (Serialize_entry (H := ref_faiss) type_name added ∅) as [_ Hok].
  split; [by apply Hempty|].
  destruct (Hok (fst (Serialize type_name added ∅)) eq_refl)
    as (index & bytes & Hi & _ & Hl & _).
  exists index, bytes. by split.
Defined.

Lemma GetVectorByIds_no_rows_returns :
  index_ fresh = None
  /\ GetVectorByIds fresh no_ids = Returns (Value (GenResultDataSet_tensor []))
  /\ GetVectorByIds fresh negative_dim
     = Returns (Err faiss_inner_error bad_array_new_length).
Proof. repeat split; reflexivity. Qed.

Lemma GetVectorByIds_null_index_witness :
  index_ fresh = None
  /\ GetVectorByIds fresh two_ids = Fault null_index.
Proof.
  split; [reflexivity|].
  destruct (GetVectorByIds_null_index (H := ref_faiss) fresh two_ids eq_refl)
    as (_ & _ & Hderef & _).
  apply (Hderef 1); [simpl; lia|simpl; lia|reflexivity].
Defined.

End Examples.

(** ** Further properties of the GPU flat index node *)

Section Reconstruction.
Context `{FaissLib}.

(** While every vector is reconstructed and has the width of a row, the
    loop writes them row after row. *)
Lemma reconstruct_loop_done node index in_ids d idf vecf count i xq :
  index_ node = Some index ->
  Z.to_nat (index_d index) = d ->
  ((i + count) * d <= length xq)%nat ->
  (forall q, (i <= q < i + count)%nat -> row_ok index in_ids idf vecf q) ->
  reconstruct_loop node in_ids d count i xq
  = Returns (Done (write_rows count d vecf i xq)).
Proof.
  intros Hi Hw. revert i xq.
  induction count as [|count IH]; intros i xq Hlen Hok; simpl; [done|].
  destruct (Hok i ltac:(lia)) as [-> Hrec]. rewrite Hi, Hrec, Hw.
  rewrite decide_True by nia.
  apply IH; [rewrite write_row_length; lia|].
  intros q Hq. apply Hok. lia.
Qed.

(** The loop stops at the first vector the library cannot reconstruct. *)
Lemma reconstruct_loop_throw node index in_ids d idf vecf m id_ what
    count i xq :
  index_ node = Some index ->
  Z.to_nat (index_d index) = d ->
  ((i + m) * d <= length xq)%nat ->
  (m < count)%nat ->
  (forall q, (i <= q < i + m)%nat -> row_ok index in_ids idf vecf q) ->
  in_ids !! (i + m)%nat = Some (Some id_) ->
  index_reconstruct index id_ = Throw what ->
  reconstruct_loop node in_ids d count i xq = Returns (Throw what).
Proof.
  intros Hi Hw. revert count i xq.
  induction m as [|m IH]; intros count i xq Hlen Hm Hok Hid Hthrow;
    (destruct count as [|count]; [lia|]); simpl.
  - rewrite Nat.add_0_r in Hid. by rewrite Hid, Hi, Hthrow.
  - destruct (Hok i ltac:(lia)) as [-> Hrec]. rewrite Hi, Hrec, Hw.
    rewrite decide_True by nia.
    apply IH; [rewrite write_row_length; lia|lia|
               |by replace (S i + m)%nat with (i + S m)%nat by lia|done].
    intros q Hq. apply Hok. lia.
Qed.

(** With an index whose vectors have the width of a row, ids that can be
    read and an array that holds the rows, the loop returns: nothing null
    is dereferenced, nothing is read outside the ids and nothing is
    written outside the array. *)
Lemma reconstruct_loop_returns node index in_ids d count i xq :
  index_ node = Some index ->
  Z.to_nat (index_d index) = d ->
  ((i + count) * d <= length xq)%nat ->
  (forall q, (i <= q < i + count)%nat ->
             exists id_, in_ids !! q = Some (Some id_)) ->
  exists e, reconstruct_loop node in_ids d count i xq = Returns e.
Proof.
  intros Hi Hw. revert i xq.
  induction count as [|count IH]; intros i xq Hlen Hread; simpl; [eauto|].
  destruct (Hread i ltac:(lia)) as [id_ ->]. rewrite Hi.
  destruct (index_reconstruct index id_) as [vec|what]; [|eauto].
  rewrite Hw, decide_True by nia.
  apply IH; [rewrite write_row_length; lia|].
  intros q Hq. apply Hread. lia.
Qed.

(** When the loop ends normally, with vectors of the width of a row, the
    array has its length, the rows before [i] are as they were and every
    cell of the rows from [i] on is written. *)
Lemma reconstruct_loop_written node index in_ids d count i xq xq' :
  index_ node = Some index ->
  Z.to_nat (index_d index) = d ->
  reconstruct_loop node in_ids d count i xq = Returns (Done xq') ->
  length xq' = length xq
  /\ (forall p, (p < i * d)%nat -> xq' !! p = xq !! p)
  /\ (forall p, (i * d <= p < (i + count) * d)%nat -> (p < length xq)%nat ->
                 exists x, xq' !! p = Some (Some x)).
Proof.
  intros Hi Hw. revert i xq. induction count as [|count IH]; intros i xq; simpl.
  - intros [= <-]. split; [done|]. split; [done|]. intros p Hp. lia.
  - destruct (in_ids !! i) as [[id_|]|]; try discriminate.
    rewrite Hi, Hw.
    destruct (index_reconstruct index id_) as [vec|what]; [|discriminate].
    case_decide as Hfit; [|discriminate].
    intros Hloop. apply IH in Hloop as (Hlen & Hlow & Hfill).
    rewrite write_row_length in Hlen, Hfill.
    split; [done|]. split.
    + intros p Hp. rewrite Hlow by (simpl; lia).
      apply write_row_lookup_other. lia.
    + intros p Hp Hlt. destruct (decide (p < S i * d)%nat) as [Hrow|Hrow].
      * rewrite Hlow by done. exists (vec (p - i * d)%nat).
        replace p with (i * d + (p - i * d))%nat at 1 by lia.
        apply write_row_lookup; simpl in *; lia.
      * apply Hfill; [|done]. simpl in *. lia.
Qed.

End Reconstruction.

Section GpuFlatMore.
Context `{FaissLib}.
Variable metric_map : gmap string MetricType.
Variable INDEX_FAISS_GPU_IDMAP : string.

Lemma tensor_array_length (nq d : Z) :
  0 <= nq -> 0 <= d ->
  Z.to_nat (nq * d) = (Z.to_nat nq * Z.to_nat d)%nat.
Proof. intros Hn Hd. nia. Qed.

(** X1: when the node holds an index whose dimension is the [dim] of the
    data set and every requested vector is reconstructed, GetVectorByIds
    returns a tensor of [nq * dim] cells, all written, with component [j]
    of the vector of the [i]-th id at cell [i * dim + j]. *)
Theorem GetVectorByIds_result node dataset index idf vecf :
  index_ node = Some index ->
  dim dataset = index_d index ->
  0 <= rows dataset -> 0 <= dim dataset ->
  (forall q, Z.of_nat q < rows dataset ->
             row_ok index (ids dataset) idf vecf q) ->
  exists r, GetVectorByIds node dataset = Returns (Value r)
    /\ length (tensor r) = Z.to_nat (rows dataset * dim dataset)
    /\ filled (tensor r)
    /\ forall i j : nat,
         Z.of_nat i < rows dataset -> Z.of_nat j < dim dataset ->
         tensor r !! (i * Z.to_nat (dim dataset) + j)%nat
         = Some (Some (vecf i j)).
Proof.
  intros Hi Hw Hn Hd Hok. unfold GetVectorByIds.
  pose proof (tensor_array_length _ _ Hn Hd) as Hlen.
  rewrite decide_False by nia.
  rewrite (reconstruct_loop_done node index _ _ idf vecf);
    [|done|by rewrite Hw|rewrite new_array_length; simpl; lia
     |intros q Hq; apply Hok; lia].
  eexists. split; [reflexivity|]. simpl.
  rewrite write_rows_length, new_array_length. split; [done|]. split.
  - apply write_rows_filled. by rewrite new_array_length.
  - intros i j Hin Hjd. apply write_rows_lookup; try lia.
    rewrite new_array_length. simpl. lia.
Qed.

(** X2: on a node that holds an index whose dimension is the [dim] of the
    data set, GetVectorByIds stops at the first id whose vector the
    library cannot reconstruct and returns [faiss_inner_error] with the
    message of that exception for the whole call. *)
Theorem GetVectorByIds_first_failure node dataset index idf vecf m id_ what :
  index_ node = Some index ->
  dim dataset = index_d index ->
  0 <= dim dataset ->
  Z.of_nat m < rows dataset ->
  (forall q, (q < m)%nat -> row_ok index (ids dataset) idf vecf q) ->
  ids dataset !! m = Some (Some id_) ->
  index_reconstruct index id_ = Throw what ->
  GetVectorByIds node dataset = Returns (Err faiss_inner_error what).
Proof.
  intros Hi Hw Hd Hm Hok Hid Hthrow. unfold GetVectorByIds.
  assert (0 <= rows dataset) as Hn by lia.
  pose proof (tensor_array_length _ _ Hn Hd) as Hlen.
  rewrite decide_False by nia.
  assert (Z.to_nat (index_d index) = Z.to_nat (dim dataset)) as Hw'
    by (by rewrite Hw).
  assert ((0 + m) * Z.to_nat (dim dataset)
          <= length (new_array (A := Scalar) (rows dataset * dim dataset)))%nat
    as Hfit by (rewrite new_array_length; simpl; nia).
  assert (m < Z.to_nat (rows dataset))%nat as Hm' by lia.
  assert (forall q, (0 <= q < 0 + m)%nat ->
                    row_ok index (ids dataset) idf vecf q) as Hok'
    by (intros q Hq; apply Hok; lia).
  by rewrite (reconstruct_loop_throw node index _ _ idf vecf m id_ what _ _ _
                Hi Hw' Hfit Hm' Hok' Hid Hthrow).
Qed.

(** X3: with an index whose dimension is the [dim] of the data set and
    ids that can all be read, GetVectorByIds runs into no undefined
    behaviour, and it answers [faiss_inner_error] or a tensor of
    [nq * dim] cells none of which is left unwritten. *)
Theorem GetVectorByIds_all_or_nothing node dataset index :
  index_ node = Some index ->
  dim dataset = index_d index ->
  0 <= rows dataset -> 0 <= dim dataset ->
  (forall q : nat, Z.of_nat q < rows dataset ->
                   exists id_, ids dataset !! q = Some (Some id_)) ->
  (exists what,
     GetVectorByIds node dataset = Returns (Err faiss_inner_error what))
  \/ (exists r, GetVectorByIds node dataset = Returns (Value r)
        /\ length (tensor r) = Z.to_nat (rows dataset * dim dataset)
        /\ filled (tensor r)).
Proof.
  intros Hi Hw Hn Hd Hread. unfold GetVectorByIds.
  pose proof (tensor_array_length _ _ Hn Hd) as Hnd.
  rewrite decide_False by nia.
  assert (Z.to_nat (index_d index) = Z.to_nat (dim dataset)) as Hw'
    by (by rewrite Hw).
  destruct (reconstruct_loop_returns node index (ids dataset)
              (Z.to_nat (dim dataset)) (Z.to_nat (rows dataset)) O
              (new_array (rows dataset * dim dataset)) Hi Hw') as [e He].
  { rewrite new_array_length. simpl. lia. }
  { intros q Hq. apply Hread. lia. }
  rewrite He. destruct e as [xq'|what]; [right|left; eauto].
  apply (reconstruct_loop_written _ index) in He as (Hlen & _ & Hfill);
    [|done|done].
  rewrite new_array_length in Hlen, Hfill.
  eexists. split; [reflexivity|]. simpl. split; [done|].
  apply Forall_lookup_2. intros p c Hp.
  assert (p < length xq')%nat as Hlt by (eapply lookup_lt_Some; eauto).
  destruct (Hfill p) as [x Hx]; [simpl; lia|lia|].
  rewrite Hx in Hp. injection Hp as <-. eauto.
Qed.

(** X4: Add, Dim, Count and Size have no test of the index pointer: on a
    node that holds no index each of them dereferences the null
    pointer. *)
Theorem unguarded_methods node dataset cfg :
  is_empty node ->
  Add node dataset cfg = Fault null_index
  /\ Dim node = Fault null_index
  /\ Count node = Fault null_index
  /\ Size node = Fault null_index.
Proof.
  unfold is_empty, Add, Dim, Count, Size. intros ->. done.
Qed.

(** X5: on a node that holds an index the three accessors return, and
    Size is Count times Dim times the four bytes of a float. *)
Theorem Size_is_Count_times_Dim node :
  ~ is_empty node ->
  exists c d, Count node = Returns c /\ Dim node = Returns d
    /\ Size node = Returns (c * d * 4).
Proof.
  unfold is_empty, Dim, Count, Size.
  destruct (index_ node) as [index|]; [eauto|done].
Qed.

(** X6: a Serialize that does not succeed leaves the binary set as it
    was; it answers [empty_index] exactly on a node without index and
    [faiss_inner_error] exactly when the library throws while writing. *)
Theorem Serialize_failure_keeps_binset node binset :
  snd (Serialize INDEX_FAISS_GPU_IDMAP node binset) <> success ->
  fst (Serialize INDEX_FAISS_GPU_IDMAP node binset) = binset
  /\ ((snd (Serialize INDEX_FAISS_GPU_IDMAP node binset) = empty_index
       /\ is_empty node)
      \/ (snd (Serialize INDEX_FAISS_GPU_IDMAP node binset) = faiss_inner_error
          /\ exists index what,
               index_ node = Some index
               /\ faiss_write_index index = Throw what)).
Proof.
  unfold Serialize, is_empty.
  destruct (index_ node) as [index|].
  - destruct (faiss_write_index index) as [bytes|what] eqn:Hw; simpl.
    + intros Hs. by destruct Hs.
    + intros _. split; [done|]. right. split; [done|]. eauto.
  - intros _. split; [done|]. left. by split.
Qed.

(** X7: Serialize stores its entry under one name: serializing again into
    the binary set it produced gives the same binary set and the same
    status, the entry replaced and not added a second time. *)
Theorem Serialize_twice node binset :
  Serialize INDEX_FAISS_GPU_IDMAP node
    (fst (Serialize INDEX_FAISS_GPU_IDMAP node binset))
  = Serialize INDEX_FAISS_GPU_IDMAP node binset.
Proof.
  unfold Serialize. destruct (index_ node) as [index|]; [|done].
  destruct (faiss_write_index index) as [bytes|what]; [|done].
  simpl. unfold Append. by rewrite insert_insert_eq.
Qed.

(** X8: Deserialize looks at the entry under the type name of the index
    only: two binary sets with the same entry there give the same node and
    the same status, whatever else they hold and whatever the
    configuration. *)
Theorem Deserialize_reads_own_entry node binset binset' config config' :
  binset !! Type_ INDEX_FAISS_GPU_IDMAP
  = binset' !! Type_ INDEX_FAISS_GPU_IDMAP ->
  Deserialize INDEX_FAISS_GPU_IDMAP node binset config
  = Deserialize INDEX_FAISS_GPU_IDMAP node binset' config'.
Proof. intros Heq. unfold Deserialize, GetByName. by rewrite Heq. Qed.

(** X9: the status of Deserialize does not depend on the node it is
    called on, and a Deserialize that succeeds replaces the node as a
    whole: nothing of the index or of the resource held before is left. *)
Theorem Deserialize_replaces_node node node0 binset config :
  snd (Deserialize INDEX_FAISS_GPU_IDMAP node binset config)
  = snd (Deserialize INDEX_FAISS_GPU_IDMAP node0 binset config)
  /\ (snd (Deserialize INDEX_FAISS_GPU_IDMAP node binset config) = success ->
      fst (Deserialize INDEX_FAISS_GPU_IDMAP node binset config)
      = fst (Deserialize INDEX_FAISS_GPU_IDMAP node0 binset config)
      /\ res_ (fst (Deserialize INDEX_FAISS_GPU_IDMAP node binset config))
         = Some GetRes).
Proof.
  unfold Deserialize.
  destruct (GetByName _ _) as [binary|]; [|done].
  destruct (faiss_read_index _) as [index|]; [|done].
  destruct (index_cpu_to_gpu _ _); done.
Qed.

(** X10: the statuses of Deserialize: [invalid_binary_set] exactly when
    the entry is missing, [success] exactly when the library reads the
    bytes and copies the index to the device, and [faiss_inner_error]
    otherwise. *)
Theorem Deserialize_status node binset config :
  let result := Deserialize INDEX_FAISS_GPU_IDMAP node binset config in
  (snd result = invalid_binary_set
   <-> GetByName binset (Type_ INDEX_FAISS_GPU_IDMAP) = None)
  /\ (snd result = success
      <-> exists binary index gpu_index,
            GetByName binset (Type_ INDEX_FAISS_GPU_IDMAP) = Some binary
            /\ faiss_read_index
                 (reader_rest (reader_new (data binary) (size binary)))
               = Done index
            /\ index_cpu_to_gpu GetRes index = Done gpu_index
            /\ fst result = mkNode (Some GetRes) (Some gpu_index))
  /\ (snd result = success \/ snd result = invalid_binary_set
      \/ snd result = faiss_inner_error).
Proof.
  unfold Deserialize. simpl.
  destruct (GetByName _ _) as [binary|] eqn:Hb; simpl.
  - destruct (faiss_read_index _) as [index|what] eqn:Hr; simpl.
    + destruct (index_cpu_to_gpu _ _) as [gpu_index|what] eqn:Hg; simpl.
      * split; [done|]. split; [|by left].
        split; [|done]. intros _. exists binary, index, gpu_index. done.
      * split; [done|]. split; [|by right; right].
        split; [done|]. intros (b & i & g & [= <-] & Hr' & Hg' & _).
        congruence.
    + split; [done|]. split; [|by right; right].
      split; [done|]. intros (b & i & g & [= <-] & Hr' & _). congruence.
  - split; [done|]. split; [|by right; left].
    split; [done|]. intros (b & i & g & Hb' & _). done.
Qed.

(** X11: a blob the library reads still fails with [faiss_inner_error]
    when the copy of the index to the device throws, and the node is left
    as it was. *)
Theorem Deserialize_gpu_failure node binset config binary index what :
  GetByName binset (Type_ INDEX_FAISS_GPU_IDMAP) = Some binary ->
  faiss_read_index (reader_rest (reader_new (data binary) (size binary)))
  = Done index ->
  index_cpu_to_gpu GetRes index = Throw what ->
  Deserialize INDEX_FAISS_GPU_IDMAP node binset config
  = (node, faiss_inner_error).
Proof.
  intros Hb Hr Hg. unfold Deserialize. by rewrite Hb, Hr, Hg.
Qed.

(** X12: on a node that holds an index and the handle of its resource, a
    Search for no query, or for no neighbour, that the library answers
    returns a result with two empty arrays. *)
Theorem Search_no_queries node dataset cfg bitset index handle res :
  index_ node = Some index ->
  res_ node = Some handle ->
  index_search index (rows dataset) (GetTensor dataset) (k cfg) bitset
  = Done res ->
  0 <= rows dataset -> 0 <= k cfg ->
  rows dataset = 0 \/ k cfg = 0 ->
  Search node dataset cfg bitset
  = Returns (Value (GenResultDataSet (rows dataset) (k cfg) [] [])).
Proof.
  intros Hi Hr Hs Hn Hk Hzero.
  assert (0 <= k cfg * rows dataset) as Hlen by nia.
  rewrite (Search_done _ _ _ _ _ _ _ Hi Hr Hlen Hs).
  do 3 f_equal; apply nil_length_inv;
    rewrite write_rows_length, new_array_length; nia.
Qed.

Lemma step_index node c node' st :
  step metric_map INDEX_FAISS_GPU_IDMAP node c = Returns (node', st) ->
  (~ is_empty node'
   <-> ~ is_empty node \/ installs metric_map INDEX_FAISS_GPU_IDMAP c).
Proof.
  unfold is_empty. destruct c as [ds cfg|ds cfg|binset config|f config]; simpl.
  - unfold Train, Str2FaissMetricType.
    destruct (metric_map !! metric_type cfg) as [m|]; intros [= <- <-]; simpl.
    + split; [right; eauto|done].
    + split; [by left|]. intros [|[m Hm]]; done.
  - unfold Add. destruct (index_ node) as [index|] eqn:Hi; [|done].
    destruct (index_add _ _ _); intros [= <- <-]; simpl; rewrite ?Hi;
      intuition congruence.
  - unfold Deserialize.
    destruct (GetByName _ _) as [binary|]; simpl;
      [|intros [= <- <-]; intuition congruence].
    destruct (faiss_read_index _) as [index|]; simpl;
      [|intros [= <- <-]; intuition congruence].
    destruct (index_cpu_to_gpu _ _); simpl; intros [= <- <-]; simpl;
      intuition congruence.
  - unfold DeserializeFromFile. intros [= <- <-]. tauto.
Qed.

Lemma step_returns node c :
  ~ is_empty node ->
  exists node' st,
    step metric_map INDEX_FAISS_GPU_IDMAP node c = Returns (node', st).
Proof.
  unfold is_empty. intros Hne.
  destruct c as [ds cfg|ds cfg|binset config|f config]; simpl.
  - destruct (Train metric_map node ds cfg); eauto.
  - unfold Add. destruct (index_ node) as [index|]; [|done].
    destruct (index_add _ _ _); eauto.
  - destruct (Deserialize INDEX_FAISS_GPU_IDMAP node binset config); eauto.
  - eauto.
Qed.

(** X13: no method takes the index away: from a node that holds an index,
    every sequence of Train, Add, Deserialize and DeserializeFromFile
    calls, failing or not, runs without a null dereference and ends on a
    node that holds an index, so that Search does not answer
    [empty_index]. *)
Theorem run_keeps_index node cs :
  ~ is_empty node ->
  exists node',
    run metric_map INDEX_FAISS_GPU_IDMAP node cs = Returns node'
    /\ ~ is_empty node'
    /\ forall dataset cfg bitset msg,
         Search node' dataset cfg bitset <> Returns (Err empty_index msg).
Proof.
  revert node. induction cs as [|c cs IH]; intros node Hne; simpl.
  - exists node. split; [done|]. split; [done|].
    intros dataset cfg bitset msg. unfold Search. unfold is_empty in Hne.
    destruct (index_ node) as [index|]; [|done].
    case_decide; [discriminate|].
    destruct (ResScope _ _); [|discriminate].
    destruct (index_search _ _ _ _ _); discriminate.
  - destruct (step_returns node c Hne) as (node1 & st & Hstep).
    rewrite Hstep. apply IH. eapply step_index; eauto.
Qed.

(** X14: the node holds an index after a sequence of calls exactly when
    it held one before or one of the calls was a Train with a metric of
    the table or a Deserialize of a binary set that is accepted. *)
Theorem run_index_iff node cs node' :
  run metric_map INDEX_FAISS_GPU_IDMAP node cs = Returns node' ->
  (~ is_empty node'
   <-> ~ is_empty node
       \/ Exists (installs metric_map INDEX_FAISS_GPU_IDMAP) cs).
Proof.
  revert node. induction cs as [|c cs IH]; intros node; simpl.
  - intros [= <-]. rewrite Exists_nil. tauto.
  - destruct (step _ _ node c) as [[node1 st]|f] eqn:Hstep; [|done].
    intros Hrun. rewrite (IH _ Hrun), (step_index _ _ _ _ Hstep), Exists_cons.
    tauto.
Qed.

End GpuFlatMore.

(** ** Examples for the further properties *)

Section MoreExamples.
Import Example.
#[local] Existing Instance ref_faiss.

Lemma GetVectorByIds_result_witness :
  exists r, GetVectorByIds added two_ids = Returns (Value r)
    /\ length (tensor r) = 4%nat
    /\ filled (tensor r)
    /\ tensor r !! 0%nat = Some (Some x03).
Proof.
  destruct (GetVectorByIds_result (H := ref_faiss) added two_ids
              (mkRef 2 METRIC_L2 [x01; x02; x03; x04] false)
              (fun q => nth q [1; 0] 0)
              (fun q j =>
                 nth (Z.to_nat (nth q [1; 0] 0 * 2) + j)
                   [x01; x02; x03; x04] x00)
              eq_refl eq_refl ltac:(discriminate) ltac:(discriminate))
    as (r & Hr & Hlen & Hfill & Hcell).
  { intros [|[|q]] Hq; [split; reflexivity|split; reflexivity|].
    simpl in Hq. lia. }
  exists r. split; [exact Hr|]. split; [exact Hlen|]. split; [exact Hfill|].
  exact (Hcell 0%nat 0%nat ltac:(simpl; lia) ltac:(simpl; lia)).
Defined.

Lemma GetVectorByIds_first_failure_witness :
  GetVectorByIds added missing_id
  = Returns (Err faiss_inner_error "key out of range").
Proof.
  apply (GetVectorByIds_first_failure (H := ref_faiss) added missing_id
           (mkRef 2 METRIC_L2 [x01; x02; x03; x04] false)
           (fun _ => 1)
           (fun _ j => nth (2 + j) [x01; x02; x03; x04] x00)
           1%nat 7 "key out of range"); try reflexivity; try discriminate.
  intros [|q] Hq; [split; reflexivity|lia].
Defined.

Lemma GetVectorByIds_all_or_nothing_witness :
  (exists what,
     GetVectorByIds added two_ids = Returns (Err faiss_inner_error what))
  \/ (exists r, GetVectorByIds added two_ids = Returns (Value r)
        /\ length (tensor r) = 4%nat
        /\ filled (tensor r)).
Proof.
  apply (GetVectorByIds_all_or_nothing (H := ref_faiss) added two_ids
           (mkRef 2 METRIC_L2 [x01; x02; x03; x04] false) eq_refl eq_refl
           ltac:(discriminate) ltac:(discriminate)).
  intros [|[|q]] Hq; [by exists 1|by exists 0|simpl in Hq; lia].
Defined.

Lemma unguarded_methods_witness :
  Add fresh two_vectors cfg_L2 = Fault null_index
  /\ Dim fresh = Fault null_index
  /\ Count fresh = Fault null_index
  /\ Size fresh = Fault null_index.
Proof.
  apply (unguarded_methods (H := ref_faiss) fresh two_vectors cfg_L2).
  reflexivity.
Defined.

Lemma Size_is_Count_times_Dim_witness :
  exists c d, Count added = Returns c /\ Dim added = Returns d
    /\ Size added = Returns (c * d * 4).
Proof.
  apply (Size_is_Count_times_Dim (H := ref_faiss) added). discriminate.
Defined.

Lemma Serialize_failure_keeps_binset_witness :
  snd (Serialize type_name fresh garbage) <> success
  /\ fst (Serialize type_name fresh garbage) = garbage.
Proof.
  assert (snd (Serialize type_name fresh garbage) <> success) as Hs
    by discriminate.
  split; [exact Hs|].
  exact (proj1 (Serialize_failure_keeps_binset (H := ref_faiss) type_name
                  fresh garbage Hs)).
Defined.

Lemma Deserialize_reads_own_entry_witness :
  Deserialize type_name fresh garbage cfg_L2
  = Deserialize type_name fresh (Append garbage "other" [x49] 1) cfg_bad.
Proof.
  apply (Deserialize_reads_own_entry (H := ref_faiss) type_name fresh garbage
           (Append garbage "other" [x49] 1) cfg_L2 cfg_bad).
  symmetry. apply lookup_insert_ne. discriminate.
Defined.

Lemma Deserialize_gpu_failure_witness :
  Deserialize (H := no_gpu_faiss) type_name no_gpu_added
    (Append ∅ type_name [x49; x02; x01; x01; x02; x03; x04] 7) cfg_L2
  = (no_gpu_added, faiss_inner_error).
Proof.
  apply (Deserialize_gpu_failure (H := no_gpu_faiss) type_name no_gpu_added
           (Append ∅ type_name [x49; x02; x01; x01; x02; x03; x04] 7) cfg_L2
           (mkBinary [x49; x02; x01; x01; x02; x03; x04] 7)
           (mkRef 2 METRIC_L2 [x01; x02; x03; x04] false) "no device").
  - apply lookup_insert_eq.
  - reflexivity.
  - reflexivity.
Defined.

Lemma Search_no_queries_witness :
  Search loaded two_vectors (mkConfig "L2" 0) no_bits
  = Returns (Value (GenResultDataSet 2 0 [] [])).
Proof.
  assert (index_ loaded
          = Some (mkRef 2 METRIC_L2 [x01; x02; x03; x04] true)) as Hi
    by (by rewrite loaded_node).
  assert (res_ loaded = Some O) as Hh by (by rewrite loaded_node).
  apply (Search_no_queries (H := ref_faiss) loaded two_vectors
           (mkConfig "L2" 0) no_bits
           (mkRef 2 METRIC_L2 [x01; x02; x03; x04] true) O
           (fun q j =>
              if bool_decide (Z.of_nat j < 2) && negb (no_bits (Z.of_nat j))
              then (Z.of_nat j, x00) else (-1, xff)) Hi Hh);
    try reflexivity; try discriminate.
  by right.
Defined.

Lemma run_keeps_index_witness :
  exists node',
    run metrics type_name trained session = Returns node'
    /\ ~ is_empty node'.
Proof.
  destruct (run_keeps_index (H := ref_faiss) metrics type_name trained session)
    as (node' & Hrun & Hne & _); [discriminate|].
  exists node'. by split.
Defined.

Lemma run_index_iff_witness :
  run metrics type_name fresh session = Returns added
  /\ (~ is_empty added
      <-> ~ is_empty fresh \/ Exists (installs metrics type_name) session).
Proof.
  split; [vm_compute; reflexivity|].
  apply (run_index_iff (H := ref_faiss) metrics type_name fresh session added).
  vm_compute. reflexivity.
Defined.

End MoreExamples.
